(** * Activity scheduler with weather constraints: main6(CSP).py

    A shallow embedding of the constraint model of [main6(CSP).py]
    (weather predicate, weather constraint, domain construction,
    non-overlap constraint, [solve_csp] and its schedule builder) and the
    properties of it that the specification states.

    Conventions of the embedding.
    - A [datetime] is the integer number of seconds on the time line and a
      [timedelta] is a number of seconds: [timedelta(hours=h)] is
      [3600 * h] and [timedelta(minutes=m)] is [60 * m].
    - An activity's [duration] is the number of hours entered in the input
      widget (0.5 to 12.0 in steps of 0.5).  It is held in seconds, so that
      [int(duration)] is [duration ÷ 3600], [int(duration * 2)] is
      [duration ÷ 1800] (÷ truncates toward zero, as [int] does) and both
      [timedelta(hours=duration)] and [timedelta(minutes=duration * 60)]
      are [duration] itself.
    - A weather preference is one of the three keys of [condition_map],
      the only values the multiselect offers.
    - The rows that [solve_csp] stores in [weather_dict] are the rows of
      [weather_data.iterrows()], pandas Series.  The truth value of a
      Series is not defined: [if weather_data:] raises [ValueError] for a
      row that the lookup found, and is false for the [None] of a missing
      hour.  An exception is a value of [exn]; a function that can raise
      returns [exn + A]. *)

From stdpp Require Import gmap strings list fin_maps sorting.

Local Open Scope Z_scope.

(** ** Weather compatibility predicate *)

Inductive Weather := Sunny | Cloudy | Rainy.

(** [condition_map]: the acceptance rule of each category. *)
Definition condition_map (preference : Weather) (rain_chance : Z) : bool :=
  match preference with
  | Sunny => rain_chance <? 20
  | Cloudy => (20 <=? rain_chance) && (rain_chance <=? 70)
  | Rainy => rain_chance >? 70
  end.

(** [weather_condition_check]: the first accepting preference returns
    [True]; the end of the list returns [False]. *)
Fixpoint weather_condition_check (chance_of_rain : Z) (preferences : list Weather) : bool :=
  match preferences with
  | [] => false
  | preference :: rest =>
      if condition_map preference chance_of_rain then true
      else weather_condition_check chance_of_rain rest
  end.

(** The category thresholds in the words of the specification. *)
Definition category_accepts (w : Weather) (chance_of_rain : Z) : Prop :=
  match w with
  | Sunny => chance_of_rain < 20
  | Cloudy => 20 <= chance_of_rain <= 70
  | Rainy => chance_of_rain > 70
  end.

(** ** Weather index and weather constraint *)

(** The exceptions that leave the functions of the module. *)
Inductive exn := ValueError (msg : string) | StopIteration.

(** One row of the weather table; only these two columns are read. *)
Record row := { datetime : Z; chance_of_rain : Z }.

(** The exception that pandas raises for the truth value of a Series. *)
Definition series_error : exn :=
  ValueError "The truth value of a Series is ambiguous. Use a.empty, a.bool(), a.item(), a.any() or a.all().".

(** The truth value of a row, as [if weather_data:] asks for it: the row
    is a pandas Series, for which [bool] raises. *)
Definition row_bool (weather_data : row) : exn + bool := inl series_error.

(** [{pd.to_datetime(row['datetime']): row for index, row in
    weather_data.iterrows()}]: a later row replaces an earlier one with the
    same timestamp. *)
Definition build_weather_dict (weather_data : list row) : gmap Z row :=
  foldl (fun d r => <[datetime r := r]> d) ∅ weather_data.

Definition timedelta_hours (h : Z) : Z := 3600 * h.
Definition timedelta_minutes (m : Z) : Z := 60 * m.

(** [int(duration)] and [int(duration * 2)]. *)
Definition int_hours (duration : Z) : Z := duration ÷ 3600.
Definition int_half_hours (duration : Z) : Z := duration ÷ 1800.

(** [range(n)]: 0, 1, ..., n-1; empty when n <= 0. *)
Definition range (n : Z) : list Z := Z.of_nat <$> seq 0 (Z.to_nat n).

(** The body of the loop of [weather_constraint] over the remaining hour
    offsets. *)
Fixpoint weather_loop (offsets : list Z) (start_time : Z)
    (preferences : list Weather) (weather_dict : gmap Z row) : exn + bool :=
  match offsets with
  | [] => inr true
  | hour_offset :: rest =>
      let hour := start_time + timedelta_hours hour_offset in
      match weather_dict !! hour with
      | Some weather_data =>
          match row_bool weather_data with
          | inl e => inl e
          | inr true =>
              if negb (weather_condition_check (chance_of_rain weather_data) preferences)
              then inr false
              else weather_loop rest start_time preferences weather_dict
          | inr false => weather_loop rest start_time preferences weather_dict
          end
      | None => weather_loop rest start_time preferences weather_dict
      end
  end.

Definition weather_constraint (start_time duration : Z)
    (preferences : list Weather) (weather_dict : gmap Z row) : exn + bool :=
  weather_loop (range (int_hours duration)) start_time preferences weather_dict.

(** ** Activities and candidate start times *)

(** The dictionary returned by [add_activity_input]. *)
Record activity := { name : string; duration : Z; weather : list Weather }.

(** [timedelta(hours=duration)] and [timedelta(minutes=duration * 60)] for
    a duration in hours, which is held in seconds. *)
Definition timedelta_of_duration (duration : Z) : Z := duration.

(** The inner loop of the first [for activity in activities] of
    [solve_csp]; [duration] is the half-hour count [int(duration * 2)]. *)
Fixpoint start_times_loop (hours : list Z) (duration start_datetime end_datetime : Z) : list Z :=
  match hours with
  | [] => []
  | hour :: rest =>
      let possible_start := start_datetime + timedelta_minutes (hour * 60) in
      let possible_end := possible_start + timedelta_minutes (duration * 60) in
      if possible_end <=? end_datetime
      then possible_start :: start_times_loop rest duration start_datetime end_datetime
      else start_times_loop rest duration start_datetime end_datetime
  end.

(** [possible_start_times] of one activity; [total_seconds() // 1800] is a
    floor division. *)
Definition possible_start_times (activity_duration start_datetime end_datetime : Z) : list Z :=
  let duration := int_half_hours activity_duration in
  start_times_loop
    (range ((end_datetime - start_datetime) `div` 1800 - duration))
    duration start_datetime end_datetime.

(** [is_within_time_range], the fit test the module defines next to the
    predicate: the activity lies inside the window. *)
Definition is_within_time_range (start_time end_time activity_start activity_duration : Z) : bool :=
  let activity_end := activity_start + activity_duration in
  (start_time <=? activity_start) && (activity_end <=? end_time).

(** ** The constraint problem

    [solve_csp] drives the [constraint] package through [Problem],
    [addVariable], [addConstraint] and [getSolution].  The package is not
    part of the module.  Its bookkeeping is embedded here as the package has
    it: a variable is a name with a list of candidate values,
    [addVariable] raises [ValueError] for a name already present and for
    an empty domain, and a constraint is a function over the values of the
    variables it names, which returns a truth value or raises.
    [getSolution] is a parameter of [solve_csp]; it returns a solution,
    returns [None], or lets an exception pass, and what is assumed of it is
    [solver_sound] and, for one result, [solver_propagates] below. *)

Inductive constraint :=
| Unary (func : Z → exn + bool) (variable : string)
| Binary (func : Z → Z → exn + bool) (variable1 variable2 : string).

Record Problem := { variables : list (string * list Z); constraints : list constraint }.

Definition addVariable (variable : string) (domain : list Z) (problem : Problem) : exn + Problem :=
  if decide (variable ∈ (variables problem).*1)
  then inl (ValueError ("Tried to insert duplicated variable '" +:+ variable +:+ "'"))
  else match domain with
       | [] => inl (ValueError "Domain is empty")
       | _ => inr {| variables := variables problem ++ [(variable, domain)];
                     constraints := constraints problem |}
       end.

Definition addConstraint (c : constraint) (problem : Problem) : Problem :=
  {| variables := variables problem; constraints := constraints problem ++ [c] |}.

Definition constraint_vars (c : constraint) : list string :=
  match c with
  | Unary _ v => [v]
  | Binary _ v1 v2 => [v1; v2]
  end.

(** A call of a constraint function holds when it returns [True]. *)
Definition holds (r : exn + bool) : bool :=
  match r with
  | inr b => b
  | inl _ => false
  end.

(** A constraint holds under an assignment that gives a value to each of
    its variables and for which its function returns [True]. *)
Definition constraint_holds (assignment : gmap string Z) (c : constraint) : bool :=
  match c with
  | Unary f v =>
      match assignment !! v with Some x => holds (f x) | None => false end
  | Binary f v1 v2 =>
      match assignment !! v1, assignment !! v2 with
      | Some x1, Some x2 => holds (f x1 x2)
      | _, _ => false
      end
  end.

(** The exceptions that the function of a constraint can raise. *)
Definition constraint_raises (c : constraint) (ex : exn) : Prop :=
  match c with
  | Unary f _ => ∃ x, f x = inl ex
  | Binary f _ _ => ∃ x1 x2, f x1 x2 = inl ex
  end.

(** What the bookkeeping of the package guarantees of a problem. *)
Definition well_formed (problem : Problem) : Prop :=
  NoDup (variables problem).*1 ∧
  Forall (fun c => constraint_vars c ⊆ (variables problem).*1) (constraints problem).

(** A solution gives every variable, and nothing else, a value of its
    domain and satisfies every constraint. *)
Definition solution_of (problem : Problem) (solution : gmap string Z) : Prop :=
  (∀ v, is_Some (solution !! v) ↔ v ∈ (variables problem).*1) ∧
  (∀ v domain x, (v, domain) ∈ variables problem → solution !! v = Some x → x ∈ domain) ∧
  Forall (fun c => constraint_holds solution c = true) (constraints problem).

(** The contract of [getSolution]: whatever it returns is a solution. *)
Definition solver_sound (getSolution : Problem → exn + option (gmap string Z)) : Prop :=
  ∀ problem solution,
    well_formed problem → getSolution problem = inr (Some solution) →
    solution_of problem solution.

(** The solver raises nothing of its own: an exception that leaves
    [getSolution] was raised by the function of a constraint. *)
Definition solver_propagates (getSolution : Problem → exn + option (gmap string Z)) : Prop :=
  ∀ problem ex,
    getSolution problem = inl ex →
    ∃ c, c ∈ constraints problem ∧ constraint_raises c ex.

(** ** solve_csp *)

(** [no_overlap], the function nested in [solve_csp]. *)
Definition no_overlap (start1 start2 dur1 dur2 : Z) : bool :=
  let end1 := start1 + timedelta_of_duration dur1 in
  let end2 := start2 + timedelta_of_duration dur2 in
  (end1 <=? start2) || (end2 <=? start1).

(** The first loop: one variable per activity. *)
Fixpoint add_variables (activities : list activity) (start_datetime end_datetime : Z)
    (problem : Problem) : exn + Problem :=
  match activities with
  | [] => inr problem
  | activity :: rest =>
      match addVariable (name activity)
              (possible_start_times (duration activity) start_datetime end_datetime)
              problem with
      | inl e => inl e
      | inr problem' => add_variables rest start_datetime end_datetime problem'
      end
  end.

(** The constraint of the pair (i, j), i < j. *)
Definition overlap_constraint (a b : activity) : constraint :=
  Binary (fun start1 start2 => inr (no_overlap start1 start2 (duration a) (duration b)))
         (name a) (name b).

(** The double loop [for i in range(len(activities)): for j in range(i + 1,
    len(activities))], in the order the constraints are added. *)
Fixpoint pair_constraints (activities : list activity) : list constraint :=
  match activities with
  | [] => []
  | a :: rest => (overlap_constraint a <$> rest) ++ pair_constraints rest
  end.

(** The last loop: one weather constraint per activity. *)
Definition weather_constraint_of (weather_dict : gmap Z row) (a : activity) : constraint :=
  Unary (fun start_time => weather_constraint start_time (duration a) (weather a) weather_dict)
        (name a).

Definition add_constraints (cs : list constraint) (problem : Problem) : Problem :=
  foldl (fun p c => addConstraint c p) problem cs.

(** [next(act for act in activities if act['name'] == activity_name)]. *)
Fixpoint find_activity (activity_name : string) (activities : list activity) : option activity :=
  match activities with
  | [] => None
  | act :: rest =>
      if decide (name act = activity_name) then Some act
      else find_activity activity_name rest
  end.

(** The loop over [solution.items()] that fills [schedule]; a name without
    an activity makes [next] raise [StopIteration]. *)
Fixpoint build_schedule (items : list (string * Z)) (activities : list activity)
    (schedule : gmap string (Z * Z)) : exn + gmap string (Z * Z) :=
  match items with
  | [] => inr schedule
  | (activity_name, start_time) :: rest =>
      match find_activity activity_name activities with
      | None => inl StopIteration
      | Some activity =>
          let end_time := start_time + timedelta_of_duration (duration activity) in
          build_schedule rest activities (<[activity_name := (start_time, end_time)]> schedule)
      end
  end.

(** What a call of [solve_csp] yields: the schedule, the message string, or
    an exception that leaves the function. *)
Inductive outcome :=
| Schedule (schedule : gmap string (Z * Z))
| Message (text : string)
| Raised (e : exn).

Definition empty_problem : Problem := {| variables := []; constraints := [] |}.

(** The end of [solve_csp], from [solution = problem.getSolution()] on: an
    exception of the solver leaves [solve_csp]. *)
Definition solve_csp_result (activities : list activity)
    (solution : exn + option (gmap string Z)) : outcome :=
  match solution with
  | inl e => Raised e
  | inr None => Message "No feasible schedule found."
  | inr (Some solution) =>
      match build_schedule (map_to_list solution) activities ∅ with
      | inl e => Raised e
      | inr schedule => Schedule schedule
      end
  end.

Definition solve_csp (getSolution : Problem → exn + option (gmap string Z))
    (activities : list activity) (weather_data : list row)
    (start_datetime end_datetime : Z) : outcome :=
  let weather_dict := build_weather_dict weather_data in
  match add_variables activities start_datetime end_datetime empty_problem with
  | inl e => Raised e
  | inr problem =>
      let problem := add_constraints (pair_constraints activities) problem in
      let problem := add_constraints (weather_constraint_of weather_dict <$> activities) problem in
      solve_csp_result activities (getSolution problem)
  end.

(** ** The backtracking search *)

(** Modelled from the spec: the check of a candidate by the backtracking
    solver (the [constraint] package is not part of the module): a
    constraint is checked once all its variables have a value. *)
Definition constraint_ok (assignment : gmap string Z) (c : constraint) : exn + bool :=
  match c with
  | Unary f v =>
      match assignment !! v with Some x => f x | None => inr true end
  | Binary f v1 v2 =>
      match assignment !! v1, assignment !! v2 with
      | Some x1, Some x2 => f x1 x2
      | _, _ => inr true
      end
  end.

(** Modelled from the spec: the constraints are checked in the order they
    were added, up to the first that fails or raises. *)
Fixpoint consistent (cs : list constraint) (assignment : gmap string Z) : exn + bool :=
  match cs with
  | [] => inr true
  | c :: rest =>
      match constraint_ok assignment c with
      | inl e => inl e
      | inr true => consistent rest assignment
      | inr false => inr false
      end
  end.

(** Modelled from the spec: the candidates of one variable are tried in
    domain order; [continue] searches the variables that follow, and a
    failure there moves on to the next candidate. *)
Fixpoint try_values (continue : gmap string Z → exn + option (gmap string Z))
    (cs : list constraint) (v : string) (assignment : gmap string Z)
    (candidates : list Z) : exn + option (gmap string Z) :=
  match candidates with
  | [] => inr None
  | x :: rest =>
      let assignment' := <[v := x]> assignment in
      match consistent cs assignment' with
      | inl e => inl e
      | inr true =>
          match continue assignment' with
          | inl e => inl e
          | inr (Some solution) => inr (Some solution)
          | inr None => try_values continue cs v assignment rest
          end
      | inr false => try_values continue cs v assignment rest
      end
  end.

(** Modelled from the spec: the variables are assigned in the order they
    were added. *)
Fixpoint search (cs : list constraint) (todo : list (string * list Z))
    (assignment : gmap string Z) : exn + option (gmap string Z) :=
  match todo with
  | [] => inr (Some assignment)
  | (v, domain) :: rest => try_values (search cs rest) cs v assignment domain
  end.

(** Modelled from the spec: the backtracking solver behind
    [problem.getSolution()] ([BacktrackingSolver] of the [constraint]
    package, which is not part of the module).  Plain chronological
    backtracking: the variables in the order they were added, the
    candidates of each in domain order, a candidate kept when every
    constraint whose variables all have a value holds, the first complete
    assignment returned, [None] when the first variable runs out of
    candidates; an exception of a constraint ends the search. *)
Definition backtracking (problem : Problem) : exn + option (gmap string Z) :=
  search (constraints problem) (variables problem) ∅.

(** ** The problem that [solve_csp] hands to the solver *)

(** The variable that the first loop adds for an activity. *)
Definition activity_variable (start_datetime end_datetime : Z) (a : activity) : string * list Z :=
  (name a, possible_start_times (duration a) start_datetime end_datetime).

(** The problem built by the three loops of [solve_csp]. *)
Definition csp_problem (activities : list activity) (weather_dict : gmap Z row)
    (s e : Z) : Problem :=
  {| variables := activity_variable s e <$> activities;
     constraints := pair_constraints activities ++
                    (weather_constraint_of weather_dict <$> activities) |}.

(** ** The search as a state machine *)

(** One entry of the search stack: a variable, its domain, the value it
    holds and the candidates not tried yet. *)
Record frame := { fvar : string; fdomain : list Z; fvalue : Z; funtried : list Z }.

(** The partial assignment held by a stack, latest entry first. *)
Definition assignment_of (stack : list frame) : gmap string Z :=
  foldr (fun f m => <[fvar f := fvalue f]> m) ∅ stack.

Inductive machine :=
| Advance (stack : list frame) (todo : list (string * list Z))
| Try (stack : list frame) (v : string) (domain untried : list Z)
      (todo : list (string * list Z))
| Backtrack (stack : list frame) (todo : list (string * list Z))
| Done (result : exn + option (gmap string Z)).

(** Modelled from the spec: the transitions of the backtracking solver
    (the [constraint] package, which is not part of the module): pick the
    next unassigned activity, try its candidates in domain order, keep a
    consistent one and advance, undo the previous assignment when the
    candidates run out, fail when the first activity runs out; an
    exception of a constraint ends the run. *)
Inductive step (cs : list constraint) : machine → machine → Prop :=
| step_success stack :
    step cs (Advance stack []) (Done (inr (Some (assignment_of stack))))
| step_pick stack v domain todo :
    step cs (Advance stack ((v, domain) :: todo)) (Try stack v domain domain todo)
| step_assign stack v domain x untried todo :
    consistent cs (<[v := x]> (assignment_of stack)) = inr true →
    step cs (Try stack v domain (x :: untried) todo)
            (Advance ({| fvar := v; fdomain := domain; fvalue := x; funtried := untried |}
                        :: stack) todo)
| step_reject stack v domain x untried todo :
    consistent cs (<[v := x]> (assignment_of stack)) = inr false →
    step cs (Try stack v domain (x :: untried) todo) (Try stack v domain untried todo)
| step_raise stack v domain x untried todo ex :
    consistent cs (<[v := x]> (assignment_of stack)) = inl ex →
    step cs (Try stack v domain (x :: untried) todo) (Done (inl ex))
| step_exhausted stack v domain todo :
    step cs (Try stack v domain [] todo) (Backtrack stack ((v, domain) :: todo))
| step_undo f stack todo :
    step cs (Backtrack (f :: stack) todo)
            (Try stack (fvar f) (fdomain f) (funtried f) todo)
| step_failure todo :
    step cs (Backtrack [] todo) (Done (inr None)).

(** A run of the solver on a problem, from the empty assignment to its
    result. *)
Definition runs (problem : Problem) (result : exn + option (gmap string Z)) : Prop :=
  rtc (step (constraints problem)) (Advance [] (variables problem)) (Done result).

(** A run of [solve_csp]: the exception of the first loop, or the outcome
    built from the result of a run of the solver. *)
Inductive solve_csp_run (activities : list activity) (weather_data : list row)
    (s e : Z) : outcome → Prop :=
| run_raised ex :
    add_variables activities s e empty_problem = inl ex →
    solve_csp_run activities weather_data s e (Raised ex)
| run_searched problem result :
    add_variables activities s e empty_problem = inr problem →
    runs (add_constraints
            (weather_constraint_of (build_weather_dict weather_data) <$> activities)
            (add_constraints (pair_constraints activities) problem)) result →
    solve_csp_run activities weather_data s e (solve_csp_result activities result).

(** The outcome of a search from a position of the machine. *)
Definition search_end (stack : list frame) (todo : list (string * list Z))
    (r : exn + option (gmap string Z)) : machine :=
  match r with
  | inl ex => Done (inl ex)
  | inr (Some solution) => Done (inr (Some solution))
  | inr None => Backtrack stack todo
  end.

(** ** Sample inputs: times are seconds after midnight *)

Definition walk : activity := {| name := "Walk"; duration := 3600; weather := [Sunny] |}.
Definition hike : activity := {| name := "Hike"; duration := 7200; weather := [Sunny] |}.
Definition nap : activity := {| name := "Nap"; duration := 1800; weather := [Rainy] |}.

Definition t0800 : Z := 28800.
Definition t0900 : Z := 32400.
Definition t1000 : Z := 36000.
Definition t1100 : Z := 39600.
Definition t1200 : Z := 43200.

(** A clear morning with the 09:00 observation missing. *)
Definition morning_gap : list row :=
  [ {| datetime := t0800; chance_of_rain := 10 |};
    {| datetime := t1000; chance_of_rain := 10 |};
    {| datetime := t1100; chance_of_rain := 10 |} ].

Definition morning_clear : list row :=
  [ {| datetime := t0800; chance_of_rain := 10 |};
    {| datetime := t0900; chance_of_rain := 15 |};
    {| datetime := t1000; chance_of_rain := 10 |};
    {| datetime := t1100; chance_of_rain := 10 |} ].

(** ** The planning window of the user interface *)

(** [combine_date_time]: [datetime.combine(date_obj, time_obj)], with the
    date as a day number and the time of day as seconds after midnight. *)
Definition combine_date_time (date_obj time_obj : Z) : Z := 86400 * date_obj + time_obj.

(** ** Measures used in the statements *)

(** The sum of the durations of a list of activities. *)
Definition total_duration (activities : list activity) : Z :=
  foldr (fun a acc => duration a + acc) 0 activities.

(** Intervals (start, length) of which no two overlap, in the sense of
    [no_overlap]. *)
Fixpoint pairwise_apart (intervals : list (Z * Z)) : Prop :=
  match intervals with
  | [] => True
  | i :: rest =>
      Forall (fun j => no_overlap i.1 j.1 i.2 j.2 = true) rest ∧ pairwise_apart rest
  end.

Definition total_length (intervals : list (Z * Z)) : Z :=
  foldr (fun i acc => i.2 + acc) 0 intervals.

(** The intervals (start, duration) that an assignment gives the
    activities, in the order of the list. *)
Definition intervals_of (solution : gmap string Z) (activities : list activity) : list (Z * Z) :=
  (fun a => (default 0 (solution !! name a), duration a)) <$> activities.

(** The call of [solve_csp] in [user_interface] after Submit: both ends of
    the window are combined with the same planning day; [weather_data] is
    what [fetch_weather_data] returned for that day. *)
Definition user_interface_submit (getSolution : Problem → exn + option (gmap string Z))
    (activities : list activity) (weather_data : list row)
    (planning_day start_time end_time : Z) : outcome :=
  let start_datetime := combine_date_time planning_day start_time in
  let end_datetime := combine_date_time planning_day end_time in
  solve_csp getSolution activities weather_data start_datetime end_datetime.

(** More sample inputs. *)
Definition t0830 : Z := 30600.

Definition morning_rain : list row :=
  [ {| datetime := t0800; chance_of_rain := 90 |};
    {| datetime := t0900; chance_of_rain := 90 |};
    {| datetime := t1000; chance_of_rain := 90 |};
    {| datetime := t1100; chance_of_rain := 90 |} ].

(** Observations for the late morning only. *)
Definition morning_late : list row :=
  [ {| datetime := t1000; chance_of_rain := 10 |};
    {| datetime := t1100; chance_of_rain := 10 |} ].

Definition stroll : activity := {| name := "Stroll"; duration := 5400; weather := [Sunny] |}.

(** ** The model on small inputs *)

Example boundary_20 :
  weather_condition_check 20 [Sunny] = false ∧ weather_condition_check 20 [Cloudy] = true.
Proof. done. Qed.

Example boundary_70 :
  weather_condition_check 70 [Rainy] = false ∧ weather_condition_check 71 [Rainy] = true.
Proof. done. Qed.

Example later_row_wins :
  build_weather_dict [ {| datetime := t0800; chance_of_rain := 10 |};
                       {| datetime := t0800; chance_of_rain := 90 |} ] !! t0800
  = Some {| datetime := t0800; chance_of_rain := 90 |}.
Proof. by vm_compute. Qed.

Example half_hour_domain :
  possible_start_times (duration nap) t0800 t1000 = [t0800; t0900].
Proof. by vm_compute. Qed.

Example rainy_morning :
  solve_csp backtracking [walk]
    [ {| datetime := t0800; chance_of_rain := 90 |};
      {| datetime := t0900; chance_of_rain := 90 |};
      {| datetime := t1000; chance_of_rain := 90 |};
      {| datetime := t1100; chance_of_rain := 90 |} ] t0800 t1200
  = Raised series_error.
Proof. by vm_compute. Qed.

Example found_row_raises :
  weather_constraint t0800 (duration hike) (weather hike) (build_weather_dict morning_gap)
  = inl series_error.
Proof. by vm_compute. Qed.

Example no_candidate_left :
  solve_csp backtracking [hike; {| name := "Climb"; duration := 7200; weather := [Sunny] |}]
    [] t0800 t1200
  = Message "No feasible schedule found.".
Proof. by vm_compute. Qed.

Example same_name_twice :
  solve_csp backtracking [walk; walk] morning_clear t0800 t1200
  = Raised (ValueError "Tried to insert duplicated variable 'Walk'").
Proof. by vm_compute. Qed.

(** ** Helper facts *)

Lemma elem_of_range (n k : Z) : k ∈ range n ↔ 0 <= k < n.
Proof.
  unfold range. rewrite list_elem_of_fmap. split.
  - intros (i & -> & Hi). apply elem_of_seq in Hi. lia.
  - intros Hk. exists (Z.to_nat k). split; [lia|].
    apply elem_of_seq. lia.
Qed.

Lemma condition_map_spec (w : Weather) (c : Z) :
  condition_map w c = true ↔ category_accepts w c.
Proof. destruct w; simpl; lia. Qed.

Lemma weather_condition_check_true (c : Z) (preferences : list Weather) :
  weather_condition_check c preferences = true ↔
  ∃ w, w ∈ preferences ∧ category_accepts w c.
Proof.
  induction preferences as [|p rest IH]; simpl.
  - split; [done|]. intros (w & Hw & _). by apply elem_of_nil in Hw.
  - destruct (condition_map p c) eqn:Hp.
    + split; [|done]. intros _. exists p. split; [left|].
      by apply condition_map_spec.
    + rewrite IH. split.
      * intros (w & Hw & Hc). exists w. split; [by right|done].
      * intros (w & Hw & Hc). apply elem_of_cons in Hw as [->|Hw].
        -- apply condition_map_spec in Hc. congruence.
        -- by exists w.
Qed.

Lemma weather_loop_miss (offsets : list Z) (start_time : Z)
    (preferences : list Weather) (weather_dict : gmap Z row) :
  (∀ h, h ∈ offsets → weather_dict !! (start_time + timedelta_hours h) = None) →
  weather_loop offsets start_time preferences weather_dict = inr true.
Proof.
  induction offsets as [|o rest IH]; simpl; [done|]. intros Hmiss.
  rewrite (Hmiss o) by left. apply IH. intros h Hh. apply Hmiss. by right.
Qed.

Lemma weather_loop_hit (offsets : list Z) (start_time : Z)
    (preferences : list Weather) (weather_dict : gmap Z row) (h : Z) :
  h ∈ offsets → is_Some (weather_dict !! (start_time + timedelta_hours h)) →
  weather_loop offsets start_time preferences weather_dict = inl series_error.
Proof.
  induction offsets as [|o rest IH]; simpl.
  - intros Hh. by apply elem_of_nil in Hh.
  - intros Hh Hhit.
    destruct (weather_dict !! (start_time + timedelta_hours o)) as [wd|] eqn:Hget; [done|].
    apply elem_of_cons in Hh as [->|Hh]; [|by apply IH].
    rewrite Hget in Hhit. by destruct Hhit.
Qed.

Lemma weather_loop_true (offsets : list Z) (start_time : Z)
    (preferences : list Weather) (weather_dict : gmap Z row) :
  weather_loop offsets start_time preferences weather_dict = inr true ↔
  ∀ h, h ∈ offsets → weather_dict !! (start_time + timedelta_hours h) = None.
Proof.
  split; [|apply weather_loop_miss].
  intros Htrue h Hh.
  destruct (weather_dict !! (start_time + timedelta_hours h)) as [obs|] eqn:Hobs; [|done].
  rewrite (weather_loop_hit offsets start_time preferences weather_dict h) in Htrue;
    [done|done|by rewrite Hobs].
Qed.

Lemma weather_loop_skip (offsets : list Z) (start_time : Z)
    (preferences : list Weather) (weather_dict : gmap Z row) :
  weather_loop offsets start_time preferences weather_dict
  = weather_loop
      (filter (fun h => is_Some (weather_dict !! (start_time + timedelta_hours h))) offsets)
      start_time preferences weather_dict.
Proof.
  induction offsets as [|o rest IH]; [done|].
  destruct (weather_dict !! (start_time + timedelta_hours o)) as [wd|] eqn:Hget.
  - rewrite filter_cons_True by by rewrite Hget. simpl. rewrite Hget. done.
  - rewrite filter_cons_False by (rewrite Hget; by intros [? ?]). simpl. by rewrite Hget.
Qed.

(** ** Properties of the weather predicate and the weather constraint *)

(** C5. For every chance of rain in 0..100 and every preference list,
    [weather_condition_check] returns true exactly when the chance of rain
    satisfies at least one preferred category, with the thresholds
    Sunny: < 20, Cloudy: 20..70 inclusive, Rainy: > 70; the boundary values
    20 and 70 are accepted by Cloudy only, and an empty preference list
    gives false. *)
Theorem weather_condition_check_spec (c : Z) (preferences : list Weather) :
  0 <= c <= 100 →
  (weather_condition_check c preferences = true ↔
     ∃ w, w ∈ preferences ∧ category_accepts w c) ∧
  (∀ w b, b = 20 ∨ b = 70 → (condition_map w b = true ↔ w = Cloudy)) ∧
  weather_condition_check c [] = false.
Proof.
  intros _. split; [apply weather_condition_check_true|]. split; [|done].
  intros w b [-> | ->]; destruct w; split; intros H; try done; vm_compute in H; done.
Qed.

Lemma weather_condition_check_spec_witness :
  (weather_condition_check 20 [Sunny; Cloudy] = true ↔
     ∃ w, w ∈ [Sunny; Cloudy] ∧ category_accepts w 20) ∧
  (∀ w b, b = 20 ∨ b = 70 → (condition_map w b = true ↔ w = Cloudy)) ∧
  weather_condition_check 20 [] = false.
Proof. apply (weather_condition_check_spec 20 [Sunny; Cloudy]). lia. Defined.

(** C9. The three categories partition the chance-of-rain range: for every
    chance of rain in 0..100 exactly one of Sunny, Cloudy, Rainy accepts
    it, so the predicate with the full preference list is true. *)
Theorem weather_categories_partition (c : Z) :
  0 <= c <= 100 →
  (∃ w, condition_map w c = true ∧ ∀ w', condition_map w' c = true → w' = w) ∧
  weather_condition_check c [Sunny; Cloudy; Rainy] = true.
Proof.
  intros _. split.
  - destruct (Z.ltb_spec c 20); [|destruct (Z.leb_spec c 70)].
    + exists Sunny. split; [simpl; lia|]. intros []; simpl; [done|lia|lia].
    + exists Cloudy. split; [simpl; lia|]. intros []; simpl; [lia|done|lia].
    + exists Rainy. split; [simpl; lia|]. intros []; simpl; [lia|lia|done].
  - apply weather_condition_check_true.
    destruct (Z.ltb_spec c 20); [|destruct (Z.leb_spec c 70)].
    + exists Sunny. split; [set_solver|simpl; lia].
    + exists Cloudy. split; [set_solver|simpl; lia].
    + exists Rainy. split; [set_solver|simpl; lia].
Qed.

Lemma weather_categories_partition_witness :
  (∃ w, condition_map w 70 = true ∧ ∀ w', condition_map w' 70 = true → w' = w) ∧
  weather_condition_check 70 [Sunny; Cloudy; Rainy] = true.
Proof. apply (weather_categories_partition 70). lia. Defined.

(** ** Facts about the problem that [solve_csp] builds *)

Lemma add_variables_inr (activities : list activity) (s e : Z) (p p' : Problem) :
  add_variables activities s e p = inr p' →
  variables p' = variables p ++ (activity_variable s e <$> activities) ∧
  constraints p' = constraints p ∧
  (NoDup (variables p).*1 → NoDup (variables p').*1).
Proof.
  revert p. induction activities as [|a rest IH]; intros p; simpl.
  - intros [= <-]. by rewrite app_nil_r.
  - unfold addVariable. case_decide as Hin; [done|].
    destruct (possible_start_times (duration a) s e) as [|t ts] eqn:Hdom; [done|].
    intros Hrest. apply IH in Hrest as (Hv & Hc & Hnd). simpl in *.
    split; [|split; [done|]].
    + rewrite Hv, <- app_assoc. simpl. unfold activity_variable at 2. by rewrite Hdom.
    + intros Hp. apply Hnd. rewrite fmap_app. simpl.
      apply NoDup_app. split; [done|]. split; [|apply NoDup_singleton].
      intros x Hx Hx'. apply list_elem_of_singleton in Hx'. by subst.
Qed.

Lemma add_constraints_variables (cs : list constraint) (p : Problem) :
  variables (add_constraints cs p) = variables p.
Proof. revert p. induction cs as [|c cs IH]; intros p; [done|]. simpl. by rewrite IH. Qed.

Lemma add_constraints_constraints (cs : list constraint) (p : Problem) :
  constraints (add_constraints cs p) = constraints p ++ cs.
Proof.
  revert p. induction cs as [|c cs IH]; intros p; simpl.
  - by rewrite app_nil_r.
  - rewrite IH. simpl. by rewrite <- app_assoc.
Qed.

Lemma activity_variable_names (s e : Z) (activities : list activity) :
  (activity_variable s e <$> activities).*1 = name <$> activities.
Proof. by rewrite <- list_fmap_compose. Qed.

Lemma pair_constraints_elem (activities : list activity) (c : constraint) :
  c ∈ pair_constraints activities ↔
  ∃ i j a b, (i < j)%nat ∧ activities !! i = Some a ∧ activities !! j = Some b ∧
             c = overlap_constraint a b.
Proof.
  induction activities as [|x rest IH]; simpl.
  - split; [intros H; by apply elem_of_nil in H|].
    intros (i & j & a & b & _ & H & _). done.
  - rewrite elem_of_app, list_elem_of_fmap, IH. split.
    + intros [(b & -> & Hb) | (i & j & a & b & Hij & Ha & Hb & ->)].
      * apply list_elem_of_lookup in Hb as [j Hj].
        exists 0%nat, (S j), x, b. split; [lia|done].
      * exists (S i), (S j), a, b. split; [lia|done].
    + intros (i & j & a & b & Hij & Ha & Hb & ->).
      destruct j as [|j]; [lia|]. simpl in Hb. destruct i as [|i]; simpl in Ha.
      * left. exists b. injection Ha as <-. split; [done|].
        apply list_elem_of_lookup. by exists j.
      * right. exists i, j, a, b. split; [lia|done].
Qed.

Lemma pair_constraints_length (activities : list activity) :
  (2 * length (pair_constraints activities) =
   length activities * (length activities - 1))%nat.
Proof.
  induction activities as [|x rest IH]; [done|].
  simpl. rewrite length_app, length_fmap. nia.
Qed.

Lemma pair_constraints_vars (activities : list activity) (c : constraint) :
  c ∈ pair_constraints activities → constraint_vars c ⊆ name <$> activities.
Proof.
  intros (i & j & a & b & _ & Ha & Hb & ->)%pair_constraints_elem. simpl.
  intros v Hv. apply list_elem_of_fmap.
  apply elem_of_cons in Hv as [->|Hv]; [exists a|exists b].
  - split; [done|]. apply list_elem_of_lookup. by exists i.
  - apply list_elem_of_singleton in Hv as ->.
    split; [done|]. apply list_elem_of_lookup. by exists j.
Qed.

Lemma solve_csp_problem (activities : list activity) (wd : gmap Z row) (s e : Z) (p : Problem) :
  add_variables activities s e empty_problem = inr p →
  add_constraints (weather_constraint_of wd <$> activities)
    (add_constraints (pair_constraints activities) p) = csp_problem activities wd s e ∧
  NoDup (name <$> activities) ∧
  well_formed (csp_problem activities wd s e).
Proof.
  intros (Hv & Hc & Hnd)%add_variables_inr. simpl in *.
  assert (NoDup (name <$> activities)) as Hnames.
  { rewrite <- (activity_variable_names s e), <- Hv. apply Hnd, NoDup_nil_2. }
  split; [|split; [done|]].
  - unfold csp_problem.
    destruct (add_constraints _ (add_constraints _ p)) as [vs cs] eqn:Hp.
    apply (f_equal variables) in Hp as Hvs. apply (f_equal constraints) in Hp as Hcs.
    rewrite !add_constraints_variables in Hvs.
    rewrite !add_constraints_constraints in Hcs. simpl in *.
    rewrite Hv in Hvs. rewrite Hc in Hcs. simpl in Hcs. by subst.
  - split; simpl.
    + by rewrite activity_variable_names.
    + rewrite activity_variable_names. apply Forall_forall. intros c Hc'.
      apply elem_of_app in Hc' as [Hc'|Hc'].
      * by apply pair_constraints_vars.
      * apply list_elem_of_fmap in Hc' as (a & -> & Ha). simpl.
        intros v ->%list_elem_of_singleton. apply list_elem_of_fmap. by exists a.
Qed.

Lemma find_activity_Some (activity_name : string) (activities : list activity) (a : activity) :
  find_activity activity_name activities = Some a →
  a ∈ activities ∧ name a = activity_name.
Proof.
  induction activities as [|x rest IH]; simpl; [done|].
  case_decide as Hx.
  - intros [= <-]. split; [left|done].
  - intros [Ha Hn]%IH. split; [by right|done].
Qed.

Lemma find_activity_unique (activities : list activity) (a : activity) :
  NoDup (name <$> activities) → a ∈ activities →
  find_activity (name a) activities = Some a.
Proof.
  induction activities as [|x rest IH]; simpl.
  - intros _ H. by apply elem_of_nil in H.
  - intros [Hx Hnd]%NoDup_cons Ha. case_decide as Hn.
    + apply elem_of_cons in Ha as [->|Ha]; [done|].
      exfalso. apply Hx. rewrite Hn. apply list_elem_of_fmap. by exists a.
    + apply elem_of_cons in Ha as [->|Ha]; [done|]. by apply IH.
Qed.

Lemma build_schedule_lookup (items : list (string * Z)) (activities : list activity)
    (schedule0 schedule : gmap string (Z * Z)) :
  NoDup (items.*1) →
  build_schedule items activities schedule0 = inr schedule →
  ∀ n st en, schedule !! n = Some (st, en) ↔
    (∃ a, (n, st) ∈ items ∧ find_activity n activities = Some a ∧
          en = st + duration a) ∨
    ((n ∉ items.*1) ∧ schedule0 !! n = Some (st, en)).
Proof.
  revert schedule0. induction items as [|[k v] rest IH]; intros schedule0; simpl.
  - intros _ [= <-] n st en. split.
    + intros H. right. split; [apply not_elem_of_nil|done].
    + intros [(a & H & _)|[_ H]]; [by apply elem_of_nil in H|done].
  - intros [Hk Hnd]%NoDup_cons.
    destruct (find_activity k activities) as [a|] eqn:Hfind; [|done].
    intros Hb n st en. rewrite (IH _ Hnd Hb n st en). clear IH Hb.
    unfold timedelta_of_duration. split.
    + intros [(a' & Hin & Hf & ->)|[Hn Hl]].
      * left. exists a'. split; [by right|done].
      * destruct (decide (k = n)) as [->|Hne].
        -- rewrite lookup_insert_eq in Hl. injection Hl as <- <-.
           left. exists a. split; [left|done].
        -- rewrite lookup_insert_ne in Hl by done. right. split; [|done].
           intros [?|?]%elem_of_cons; [by subst|done].
    + intros [(a' & Hin & Hf & ->)|[Hn Hl]].
      * apply elem_of_cons in Hin as [[= -> ->]|Hin].
        -- right. split; [done|]. rewrite lookup_insert_eq. congruence.
        -- left. by exists a'.
      * right. apply not_elem_of_cons in Hn as [Hne Hn]. split; [done|].
        by rewrite lookup_insert_ne.
Qed.

Lemma build_schedule_finds (items : list (string * Z)) (activities : list activity)
    (schedule0 schedule : gmap string (Z * Z)) (n : string) (st : Z) :
  build_schedule items activities schedule0 = inr schedule →
  (n, st) ∈ items → is_Some (find_activity n activities).
Proof.
  revert schedule0. induction items as [|[k v] rest IH]; intros schedule0; simpl.
  - intros _ H. by apply elem_of_nil in H.
  - destruct (find_activity k activities) as [a|] eqn:Hfind; [|done].
    intros Hb [[= -> ->]|Hin]%elem_of_cons; [by rewrite Hfind|by eapply IH].
Qed.

(** ** Soundness of the backtracking search *)


Lemma consistent_true (cs : list constraint) (assignment : gmap string Z) :
  consistent cs assignment = inr true ↔
  ∀ c, c ∈ cs → constraint_ok assignment c = inr true.
Proof.
  induction cs as [|c rest IH]; simpl.
  - split; [|done]. intros _ c Hc. by apply elem_of_nil in Hc.
  - destruct (constraint_ok assignment c) as [ex|[]] eqn:Hc.
    + split; [done|]. intros H. specialize (H c ltac:(left)). congruence.
    + rewrite IH. split.
      * intros H c' [->|Hc']%elem_of_cons; [done|by apply H].
      * intros H c' Hc'. apply H. by right.
    + split; [done|]. intros H. specialize (H c ltac:(left)). congruence.
Qed.

Lemma constraint_ok_raises (assignment : gmap string Z) (c : constraint) (ex : exn) :
  constraint_ok assignment c = inl ex → constraint_raises c ex.
Proof.
  destruct c as [f v|f v1 v2]; simpl.
  - destruct (assignment !! v) as [x|]; [|done]. intros H. by exists x.
  - destruct (assignment !! v1) as [x1|], (assignment !! v2) as [x2|]; try done.
    intros H. by exists x1, x2.
Qed.

Lemma consistent_raises (cs : list constraint) (assignment : gmap string Z) (ex : exn) :
  consistent cs assignment = inl ex → ∃ c, c ∈ cs ∧ constraint_raises c ex.
Proof.
  induction cs as [|c rest IH]; simpl; [done|].
  destruct (constraint_ok assignment c) as [ex'|[]] eqn:Hc.
  - intros [= <-]. exists c. split; [left|]. by eapply constraint_ok_raises.
  - intros (c' & Hc' & Hr)%IH. exists c'. split; [by right|done].
  - done.
Qed.

Lemma try_values_Some (continue : gmap string Z → exn + option (gmap string Z))
    (cs : list constraint) (v : string) (assignment : gmap string Z)
    (candidates : list Z) (solution : gmap string Z) :
  try_values continue cs v assignment candidates = inr (Some solution) →
  ∃ x, x ∈ candidates ∧ consistent cs (<[v := x]> assignment) = inr true ∧
       continue (<[v := x]> assignment) = inr (Some solution).
Proof.
  induction candidates as [|x rest IH]; simpl; [done|].
  destruct (consistent cs (<[v := x]> assignment)) as [ex|[]] eqn:Hcons; [done| |].
  - destruct (continue (<[v := x]> assignment)) as [ex|[sol|]] eqn:Hk; [done| |].
    + intros [= <-]. exists x. split; [left|done].
    + intros (y & Hy & H)%IH. exists y. split; [by right|done].
  - intros (y & Hy & H)%IH. exists y. split; [by right|done].
Qed.

Lemma try_values_raises (continue : gmap string Z → exn + option (gmap string Z))
    (cs : list constraint) (v : string) (assignment : gmap string Z)
    (candidates : list Z) (ex : exn) :
  try_values continue cs v assignment candidates = inl ex →
  ∃ x, consistent cs (<[v := x]> assignment) = inl ex ∨
       continue (<[v := x]> assignment) = inl ex.
Proof.
  induction candidates as [|x rest IH]; simpl; [done|].
  destruct (consistent cs (<[v := x]> assignment)) as [ex'|[]] eqn:Hcons.
  - intros [= <-]. exists x. by left.
  - destruct (continue (<[v := x]> assignment)) as [ex'|[sol|]] eqn:Hk; [|done|done].
    intros [= <-]. exists x. by right.
  - done.
Qed.

Lemma search_raises (cs : list constraint) (todo : list (string * list Z))
    (assignment : gmap string Z) (ex : exn) :
  search cs todo assignment = inl ex → ∃ c, c ∈ cs ∧ constraint_raises c ex.
Proof.
  revert assignment. induction todo as [|[v domain] rest IH]; intros assignment; simpl.
  - done.
  - intros [x [Hcons|Hrest]]%try_values_raises.
    + by eapply consistent_raises.
    + by eapply IH.
Qed.

Lemma search_consistent (cs : list constraint) (todo : list (string * list Z))
    (assignment solution : gmap string Z) :
  search cs todo assignment = inr (Some solution) →
  consistent cs assignment = inr true → consistent cs solution = inr true.
Proof.
  revert assignment. induction todo as [|[v domain] rest IH]; intros assignment; simpl.
  - by intros [= <-].
  - intros (x & _ & Hcons & Hrest)%try_values_Some _. by eapply IH.
Qed.

Lemma search_outside (cs : list constraint) (todo : list (string * list Z))
    (assignment solution : gmap string Z) (v : string) :
  search cs todo assignment = inr (Some solution) →
  v ∉ (todo.*1) → solution !! v = assignment !! v.
Proof.
  revert assignment. induction todo as [|[w domain] rest IH]; intros assignment; simpl.
  - by intros [= <-].
  - intros (x & _ & _ & Hrest)%try_values_Some [Hne Hv]%not_elem_of_cons.
    rewrite (IH _ Hrest Hv). by rewrite lookup_insert_ne.
Qed.

Lemma search_assigns (cs : list constraint) (todo : list (string * list Z))
    (assignment solution : gmap string Z) (v : string) (domain : list Z) :
  search cs todo assignment = inr (Some solution) →
  NoDup (todo.*1) → (v, domain) ∈ todo →
  ∃ x, x ∈ domain ∧ solution !! v = Some x.
Proof.
  revert assignment. induction todo as [|[w dom] rest IH]; intros assignment; simpl.
  - intros _ _ H. by apply elem_of_nil in H.
  - intros (x & Hx & _ & Hrest)%try_values_Some [Hw Hnd]%NoDup_cons Hin.
    apply elem_of_cons in Hin as [[= -> ->]|Hin]; [|by eapply IH].
    exists x. split; [done|].
    rewrite (search_outside _ _ _ _ _ Hrest Hw). apply lookup_insert_eq.
Qed.

Lemma search_domain (cs : list constraint) (todo : list (string * list Z))
    (assignment solution : gmap string Z) (v : string) :
  search cs todo assignment = inr (Some solution) →
  is_Some (solution !! v) ↔ is_Some (assignment !! v) ∨ v ∈ todo.*1.
Proof.
  revert assignment. induction todo as [|[w dom] rest IH]; intros assignment; simpl.
  - intros [= <-]. split; [by left|]. intros [H|H]; [done|by apply elem_of_nil in H].
  - intros (x & _ & _ & Hrest)%try_values_Some. rewrite (IH _ Hrest).
    rewrite elem_of_cons. destruct (decide (w = v)) as [->|Hne].
    + rewrite lookup_insert_eq. split; [intros _; right; by left|eauto].
    + rewrite lookup_insert_ne by done. split; [tauto|].
      intros [H|[H|H]]; [by left|done|by right].
Qed.

Lemma consistent_empty (cs : list constraint) : consistent cs ∅ = inr true.
Proof.
  apply consistent_true. intros c _.
  destruct c; simpl; by rewrite lookup_empty.
Qed.

Lemma constraint_ok_holds (solution : gmap string Z) (c : constraint) :
  (∀ v, v ∈ constraint_vars c → is_Some (solution !! v)) →
  constraint_ok solution c = inr true → constraint_holds solution c = true.
Proof.
  destruct c as [f v|f v1 v2]; simpl; intros Hall.
  - destruct (Hall v) as [x ->]; [set_solver|]. by intros ->.
  - destruct (Hall v1) as [x1 ->]; [set_solver|].
    destruct (Hall v2) as [x2 ->]; [set_solver|]. by intros ->.
Qed.

Lemma backtracking_sound : solver_sound backtracking.
Proof.
  intros problem solution [Hnd Hvars] Hsol. unfold backtracking in Hsol.
  split; [|split].
  - intros v. rewrite (search_domain _ _ _ _ v Hsol), lookup_empty.
    split; [intros [[? [=]]|H]; done|by right].
  - intros v domain x Hin Hx.
    destruct (search_assigns _ _ _ _ _ _ Hsol Hnd Hin) as (y & Hy & Hy').
    congruence.
  - pose proof (search_consistent _ _ _ _ Hsol (consistent_empty _)) as Hcons.
    rewrite consistent_true in Hcons.
    apply Forall_forall. intros c Hc.
    apply constraint_ok_holds; [|by apply Hcons].
    intros v Hv. apply (search_domain _ _ _ _ v Hsol). right.
    rewrite Forall_forall in Hvars. by apply (Hvars c Hc).
Qed.

Lemma backtracking_propagates : solver_propagates backtracking.
Proof. intros problem ex Hex. by eapply search_raises. Qed.

Lemma weather_constraint_true (start_time dur : Z) (preferences : list Weather)
    (weather_dict : gmap Z row) :
  weather_constraint start_time dur preferences weather_dict = inr true ↔
  ∀ h, 0 <= h < int_hours dur →
    weather_dict !! (start_time + timedelta_hours h) = None.
Proof.
  unfold weather_constraint. rewrite weather_loop_true.
  split; intros H h Hh; apply H; by apply elem_of_range.
Qed.

Lemma weather_constraint_hit (start_time dur : Z) (preferences : list Weather)
    (weather_dict : gmap Z row) (h : Z) :
  0 <= h < int_hours dur →
  is_Some (weather_dict !! (start_time + timedelta_hours h)) →
  weather_constraint start_time dur preferences weather_dict = inl series_error.
Proof.
  intros Hh Hhit. unfold weather_constraint.
  by apply (weather_loop_hit _ _ _ _ h); [apply elem_of_range|].
Qed.

Lemma no_overlap_true (start1 start2 dur1 dur2 : Z) :
  no_overlap start1 start2 dur1 dur2 = true ↔
  start1 + dur1 <= start2 ∨ start2 + dur2 <= start1.
Proof. unfold no_overlap, timedelta_of_duration. simpl. lia. Qed.

(** ** Candidate start times *)

Lemma start_times_loop_elem (hours : list Z) (d s e t : Z) :
  t ∈ start_times_loop hours d s e ↔
  ∃ k, k ∈ hours ∧ t = s + 3600 * k ∧ s + 3600 * k + 3600 * d <= e.
Proof.
  induction hours as [|k rest IH]; simpl.
  - split; [intros H; by apply elem_of_nil in H|].
    intros (k & H & _). by apply elem_of_nil in H.
  - unfold timedelta_minutes.
    destruct (Z.leb_spec (s + 60 * (k * 60) + 60 * (d * 60)) e) as [Hle|Hgt].
    + rewrite elem_of_cons, IH. split.
      * intros [->|(k' & Hk' & Ht)]; [exists k|exists k'].
        -- split; [left|lia].
        -- split; [by right|done].
      * intros (k' & [->|Hk']%elem_of_cons & -> & Hfit); [left; lia|].
        right. by exists k'.
    + rewrite IH. split.
      * intros (k' & Hk' & Ht). exists k'. split; [by right|done].
      * intros (k' & [->|Hk']%elem_of_cons & -> & Hfit); [lia|]. by exists k'.
Qed.

Lemma possible_start_times_elem (dur s e t : Z) :
  t ∈ possible_start_times dur s e ↔
  ∃ k, 0 <= k < (e - s) `div` 1800 - dur ÷ 1800 ∧ t = s + 3600 * k ∧
       t + 3600 * (dur ÷ 1800) <= e.
Proof.
  unfold possible_start_times, int_half_hours. rewrite start_times_loop_elem.
  split; intros (k & Hk & -> & Hfit); exists k; (split; [by apply elem_of_range|done]).
Qed.

Lemma quot_ge_div (a : Z) : a `div` 1800 <= a ÷ 1800.
Proof. Z.to_euclidean_division_equations. lia. Qed.

Lemma possible_start_times_too_long (dur s e : Z) :
  dur > e - s → possible_start_times dur s e = [].
Proof.
  intros Hlong. unfold possible_start_times, int_half_hours, range.
  pose proof (Z.div_le_mono (e - s) dur 1800 ltac:(lia) ltac:(lia)).
  pose proof (quot_ge_div dur).
  replace (Z.to_nat _) with 0%nat by lia. done.
Qed.

Lemma add_variables_empty_domain (activities : list activity) (s e : Z)
    (p : Problem) (a : activity) :
  a ∈ activities → possible_start_times (duration a) s e = [] →
  ∃ msg, add_variables activities s e p = inl (ValueError msg).
Proof.
  revert p. induction activities as [|x rest IH]; intros p Ha Hdom; simpl.
  - by apply elem_of_nil in Ha.
  - unfold addVariable. case_decide; [by eexists|].
    apply elem_of_cons in Ha as [<-|Ha].
    + rewrite Hdom. by eexists.
    + destruct (possible_start_times (duration x) s e); [by eexists|].
      by apply IH.
Qed.

(** ** Missing observations and short activities *)

(** C2 (as amended). For every start time, duration and preference list,
    an hour for which the weather index has no observation is skipped: the
    result of the weather constraint is that of its loop over only those
    whole-hour offsets in [0, int(duration)) whose hour has an
    observation, and with no observation for any occupied hour the
    constraint is satisfied. *)
Theorem weather_constraint_skips_missing_hours (start_time dur : Z)
    (preferences : list Weather) (weather_dict : gmap Z row) :
  weather_constraint start_time dur preferences weather_dict
  = weather_loop
      (filter (fun h => is_Some (weather_dict !! (start_time + timedelta_hours h)))
         (range (int_hours dur)))
      start_time preferences weather_dict ∧
  ((∀ h, 0 <= h < int_hours dur →
      weather_dict !! (start_time + timedelta_hours h) = None) →
   weather_constraint start_time dur preferences weather_dict = inr true).
Proof.
  split; [apply weather_loop_skip|]. apply weather_constraint_true.
Qed.

(** The index has no observation for 08:00 and 09:00, the hours that the
    two-hour activity starting at 08:00 occupies, and the constraint is
    satisfied. *)
Lemma weather_constraint_missing_hour_satisfied :
  0 <= 1 < int_hours 7200 ∧
  build_weather_dict morning_late !! (t0800 + timedelta_hours 1) = None ∧
  weather_constraint t0800 7200 [Sunny] (build_weather_dict morning_late) = inr true.
Proof. split; [by vm_compute|]. split; by vm_compute. Qed.

(** C10. For every duration strictly less than one hour, the weather
    constraint is satisfied for every start time, preference list and
    weather index: the hour loop runs int(duration) = 0 times. *)
Theorem weather_constraint_sub_hour (start_time dur : Z)
    (preferences : list Weather) (weather_dict : gmap Z row) :
  dur < 3600 →
  range (int_hours dur) = [] ∧
  weather_constraint start_time dur preferences weather_dict = inr true.
Proof.
  intros Hdur. unfold weather_constraint.
  assert (range (int_hours dur) = []) as ->; [|done].
  unfold range, int_hours.
  assert (dur ÷ 3600 <= 0) by (Z.to_euclidean_division_equations; lia).
  replace (Z.to_nat _) with 0%nat by lia. done.
Qed.

Lemma weather_constraint_sub_hour_witness :
  range (int_hours (duration nap)) = [] ∧
  weather_constraint t0800 (duration nap) (weather nap)
    (build_weather_dict morning_clear) = inr true.
Proof.
  apply (weather_constraint_sub_hour t0800 (duration nap) (weather nap)).
  simpl. lia.
Defined.

(** ** The generated domain *)

(** C3. What the domain loop computes: the starts [window.start + k]
    hours, k = 0, 1, ..., for which twice the duration fits before the
    window end.  For a one-hour activity and the window 08:00-12:00 the
    domain is 08:00, 09:00, 10:00: the start 11:00, for which
    start + duration is the window end, and the half-hour start 08:30 are
    both missing. *)
Theorem possible_start_times_hour_steps :
  (∀ dur s e t, t ∈ possible_start_times dur s e ↔
     ∃ k, 0 <= k < (e - s) `div` 1800 - dur ÷ 1800 ∧ t = s + 3600 * k ∧
          t + 3600 * (dur ÷ 1800) <= e) ∧
  possible_start_times (duration walk) t0800 t1200 = [t0800; t0900; t1000] ∧
  is_within_time_range t0800 t1200 t1100 (duration walk) = true ∧
  (t1100 ∉ possible_start_times (duration walk) t0800 t1200) ∧
  is_within_time_range t0800 t1200 (t0800 + 1 * 1800) (duration walk) = true ∧
  t0800 + 1 * 1800 ∉ possible_start_times (duration walk) t0800 t1200.
Proof.
  split; [apply possible_start_times_elem|].
  assert (possible_start_times (duration walk) t0800 t1200 = [t0800; t0900; t1000])
    as -> by (by vm_compute).
  split; [done|]. split; [by vm_compute|]. split.
  - intros H. by repeat (apply elem_of_cons in H as [H|H]; [done|]); apply elem_of_nil in H.
  - split; [by vm_compute|].
    intros H. by repeat (apply elem_of_cons in H as [H|H]; [done|]); apply elem_of_nil in H.
Qed.

(** ** Returned schedules

    The results of this section hold for every solver: [getSolution] is a
    parameter, and where a result depends on what the solver returns the
    only assumption is [solver_sound]. *)

Section Solver.

Context (getSolution : Problem → exn + option (gmap string Z)).
Hypothesis getSolution_sound : solver_sound getSolution.

Lemma solve_csp_Schedule
    (activities : list activity) (weather_data : list row) (s e : Z)
    (schedule : gmap string (Z * Z)) :
  solve_csp getSolution activities weather_data s e = Schedule schedule →
  NoDup (name <$> activities) ∧
  well_formed (csp_problem activities (build_weather_dict weather_data) s e) ∧
  ∃ solution,
    getSolution (csp_problem activities (build_weather_dict weather_data) s e)
      = inr (Some solution) ∧
    (∀ n st, solution !! n = Some st → is_Some (find_activity n activities)) ∧
    (∀ n st en, schedule !! n = Some (st, en) ↔
       ∃ a, solution !! n = Some st ∧ find_activity n activities = Some a ∧
            en = st + duration a).
Proof.
  unfold solve_csp.
  destruct (add_variables activities s e empty_problem) as [ex|p] eqn:Hadd; [done|].
  destruct (solve_csp_problem activities (build_weather_dict weather_data) s e p Hadd)
    as (-> & Hnames & Hwf).
  unfold solve_csp_result.
  destruct (getSolution _) as [ex|[solution|]] eqn:Hsol; [done| |done].
  destruct (build_schedule _ _ _) as [ex|sched] eqn:Hbuild; [done|].
  intros [= <-]. split; [done|]. split; [done|]. exists solution. split; [done|]. split.
  - intros n st Hn. eapply build_schedule_finds; [done|].
    by apply elem_of_map_to_list.
  - intros n st en.
    rewrite (build_schedule_lookup _ _ _ _ (NoDup_fst_map_to_list solution) Hbuild).
    split.
    + intros [(a & Hin%elem_of_map_to_list & Hf & ->)|[_ H]]; [by exists a|].
      by rewrite lookup_empty in H.
    + intros (a & Hn & Hf & ->). left. exists a. by rewrite elem_of_map_to_list.
Qed.

(** A returned schedule holds, for each activity, a start of its domain
    that satisfies its constraints, and the end computed from it. *)
Lemma solve_csp_sound
    (activities : list activity) (weather_data : list row) (s e : Z)
    (schedule : gmap string (Z * Z)) :
  solve_csp getSolution activities weather_data s e = Schedule schedule →
  ∃ solution,
    solution_of (csp_problem activities (build_weather_dict weather_data) s e) solution ∧
    ∀ a, a ∈ activities →
      ∃ st, solution !! name a = Some st ∧
            schedule !! name a = Some (st, st + duration a).
Proof.
  intros (Hnames & Hwf & solution & Hsol & _ & Hsched)%solve_csp_Schedule.
  exists solution. pose proof (getSolution_sound _ _ Hwf Hsol) as Hof. split; [done|].
  intros a Ha. destruct Hof as (Hdom & _ & _).
  destruct (proj2 (Hdom (name a))) as [st Hst].
  { simpl. rewrite activity_variable_names. apply list_elem_of_fmap. by exists a. }
  exists st. split; [done|]. apply Hsched. exists a.
  split; [done|]. split; [by apply find_activity_unique|done].
Qed.


(** C4. [no_overlap] is satisfied exactly when
    start_a + dur_a <= start_b or start_b + dur_b <= start_a; one such
    constraint is posted for every pair i < j of activities, n(n-1)/2 in
    all; so in any returned schedule every two activities have entries
    with end_a <= start_b or end_b <= start_a. *)
Theorem no_overlap_all_pairs
    (activities : list activity) (weather_data : list row) (s e : Z) :
  (∀ sa sb da db,
     no_overlap sa sb da db = true ↔ sa + da <= sb ∨ sb + db <= sa) ∧
  (∀ i j a b, (i < j)%nat → activities !! i = Some a → activities !! j = Some b →
     overlap_constraint a b
       ∈ constraints (csp_problem activities (build_weather_dict weather_data) s e)) ∧
  (2 * length (pair_constraints activities)
     = length activities * (length activities - 1))%nat ∧
  (∀ schedule,
     solve_csp getSolution activities weather_data s e = Schedule schedule →
     ∀ i j a b, i ≠ j → activities !! i = Some a → activities !! j = Some b →
       ∃ sa ea sb eb,
         schedule !! name a = Some (sa, ea) ∧ schedule !! name b = Some (sb, eb) ∧
         ea = sa + duration a ∧ eb = sb + duration b ∧
         (ea <= sb ∨ eb <= sa)).
Proof.
  split; [apply no_overlap_true|].
  assert (∀ i j a b, (i < j)%nat → activities !! i = Some a → activities !! j = Some b →
    overlap_constraint a b
      ∈ constraints (csp_problem activities (build_weather_dict weather_data) s e))
    as Hposted.
  { intros i j a b Hij Ha Hb. simpl. apply elem_of_app. left.
    apply pair_constraints_elem. by exists i, j, a, b. }
  split; [done|]. split; [apply pair_constraints_length|].
  intros schedule Hrun.
  destruct (solve_csp_sound _ _ _ _ _ Hrun) as (solution & Hof & Hsched).
  destruct Hof as (_ & _ & Hcs). rewrite Forall_forall in Hcs.
  assert (∀ i j a b, (i < j)%nat → activities !! i = Some a → activities !! j = Some b →
    ∃ sa sb, schedule !! name a = Some (sa, sa + duration a) ∧
             schedule !! name b = Some (sb, sb + duration b) ∧
             (sa + duration a <= sb ∨ sb + duration b <= sa)) as Hlt.
  { intros i j a b Hij Ha Hb.
    destruct (Hsched a) as (sa & Hsa & Hea); [by eapply list_elem_of_lookup_2|].
    destruct (Hsched b) as (sb & Hsb & Heb); [by eapply list_elem_of_lookup_2|].
    exists sa, sb. split; [done|]. split; [done|].
    specialize (Hcs _ (Hposted i j a b Hij Ha Hb)). simpl in Hcs.
    rewrite Hsa, Hsb in Hcs. by apply no_overlap_true. }
  intros i j a b Hne Ha Hb.
  destruct (Nat.lt_total i j) as [Hij|[Heq|Hji]]; [|done|].
  - destruct (Hlt i j a b Hij Ha Hb) as (sa & sb & H1 & H2 & H3).
    by exists sa, (sa + duration a), sb, (sb + duration b).
  - destruct (Hlt j i b a Hji Hb Ha) as (sb & sa & H1 & H2 & H3).
    exists sa, (sa + duration a), sb, (sb + duration b).
    split; [done|]. split; [done|]. split; [done|]. split; [done|]. tauto.
Qed.

(** C6 (as amended). For every input in which some activity's duration
    exceeds the planning-window length, that activity's generated domain
    is empty and [solve_csp] returns neither a schedule nor the
    infeasibility message: it has no validation step of its own, and the
    [ValueError] with which [addVariable] rejects the empty domain (or a
    duplicated name met before it) leaves [solve_csp] unhandled, before
    the solver is called. *)
Theorem too_long_activity_raises
    (activities : list activity) (weather_data : list row) (s e : Z) (a : activity) :
  a ∈ activities → duration a > e - s →
  possible_start_times (duration a) s e = [] ∧
  ∃ msg, solve_csp getSolution activities weather_data s e = Raised (ValueError msg).
Proof.
  intros Ha Hlong.
  pose proof (possible_start_times_too_long _ _ _ Hlong) as Hdom.
  split; [done|].
  destruct (add_variables_empty_domain activities s e empty_problem a Ha Hdom)
    as [msg Hadd].
  exists msg. unfold solve_csp. by rewrite Hadd.
Qed.

(** C8. On success every entry of the assignment is mapped to the pair
    (start, end) with end = start + duration of the activity of that name,
    for every duration, and the schedule has no other entries. *)
Theorem schedule_end_is_start_plus_duration
    (activities : list activity) (weather_data : list row) (s e : Z)
    (schedule : gmap string (Z * Z)) :
  solve_csp getSolution activities weather_data s e = Schedule schedule →
  ∃ solution,
    getSolution (csp_problem activities (build_weather_dict weather_data) s e)
      = inr (Some solution) ∧
    (∀ n st, solution !! n = Some st →
       ∃ a, find_activity n activities = Some a ∧
            schedule !! n = Some (st, st + duration a)) ∧
    (∀ n st en, schedule !! n = Some (st, en) →
       ∃ a, solution !! n = Some st ∧ find_activity n activities = Some a ∧
            en = st + duration a).
Proof.
  intros (_ & _ & solution & Hsol & Hfind & Hsched)%solve_csp_Schedule.
  exists solution. split; [done|]. split.
  - intros n st Hn. destruct (Hfind n st Hn) as [a Ha]. exists a. split; [done|].
    apply Hsched. by exists a.
  - intros n st en Hn. by apply Hsched.
Qed.

End Solver.

(** ** The results at sample inputs, with the backtracking search *)



Lemma no_overlap_all_pairs_witness :
  solve_csp backtracking [walk; hike] [] t0800 t1200
    = Schedule (<[ "Walk" := (t1000, t1100) ]> {[ "Hike" := (t0800, t1000) ]}) ∧
  ((∀ sa sb da db,
     no_overlap sa sb da db = true ↔ sa + da <= sb ∨ sb + db <= sa) ∧
  (∀ i j a b, (i < j)%nat → [walk; hike] !! i = Some a → [walk; hike] !! j = Some b →
     overlap_constraint a b
       ∈ constraints (csp_problem [walk; hike] (build_weather_dict []) t0800 t1200)) ∧
  (2 * length (pair_constraints [walk; hike])
     = length [walk; hike] * (length [walk; hike] - 1))%nat ∧
  (∀ schedule,
     solve_csp backtracking [walk; hike] [] t0800 t1200 = Schedule schedule →
     ∀ i j a b, i ≠ j → [walk; hike] !! i = Some a → [walk; hike] !! j = Some b →
       ∃ sa ea sb eb,
         schedule !! name a = Some (sa, ea) ∧ schedule !! name b = Some (sb, eb) ∧
         ea = sa + duration a ∧ eb = sb + duration b ∧
         (ea <= sb ∨ eb <= sa))).
Proof.
  split; [by vm_compute|].
  apply (no_overlap_all_pairs backtracking backtracking_sound
           [walk; hike] [] t0800 t1200).
Defined.

Lemma too_long_activity_raises_witness :
  possible_start_times (duration hike) t0800 t0900 = [] ∧
  ∃ msg, solve_csp backtracking [nap; hike] morning_clear t0800 t0900
           = Raised (ValueError msg).
Proof.
  apply (too_long_activity_raises backtracking [nap; hike] morning_clear t0800 t0900 hike).
  - set_solver.
  - by vm_compute.
Defined.

(** A two-hour activity in the window 08:00-09:00: the call ends in the
    exception raised for the empty domain, not in a validation result. *)
Lemma too_long_activity_no_validation :
  duration hike > t0900 - t0800 ∧
  solve_csp backtracking [hike] morning_clear t0800 t0900
    = Raised (ValueError "Domain is empty").
Proof. split; by vm_compute. Qed.

Lemma schedule_end_is_start_plus_duration_witness :
  ∃ solution,
    backtracking (csp_problem [walk; nap] (build_weather_dict []) t0800 t1000)
      = inr (Some solution) ∧
    (∀ n st, solution !! n = Some st →
       ∃ a, find_activity n [walk; nap] = Some a ∧
            (<[ "Nap" := (t0900, t0900 + 1800) ]> {[ "Walk" := (t0800, t0900) ]}
               : gmap string (Z * Z)) !! n = Some (st, st + duration a)) ∧
    (∀ n st en,
       (<[ "Nap" := (t0900, t0900 + 1800) ]> {[ "Walk" := (t0800, t0900) ]}
          : gmap string (Z * Z)) !! n = Some (st, en) →
       ∃ a, solution !! n = Some st ∧ find_activity n [walk; nap] = Some a ∧
            en = st + duration a).
Proof.
  apply (schedule_end_is_start_plus_duration backtracking [walk; nap] [] t0800 t1000).
  by vm_compute.
Defined.

(** ** The state machine and the search function *)

Lemma step_deterministic (cs : list constraint) (m m1 m2 : machine) :
  step cs m m1 → step cs m m2 → m1 = m2.
Proof. intros H1 H2. destruct H1; inversion H2; subst; congruence. Qed.

Lemma Done_final (cs : list constraint) (r : exn + option (gmap string Z)) (m : machine) :
  ¬ step cs (Done r) m.
Proof. intros H. inversion H. Qed.

Lemma run_unique (cs : list constraint) (m : machine)
    (r1 r2 : exn + option (gmap string Z)) :
  rtc (step cs) m (Done r1) → rtc (step cs) m (Done r2) → r1 = r2.
Proof.
  intros H1. revert r2. remember (Done r1) as final eqn:Hfinal.
  induction H1 as [m|m m' final Hstep Hrest IH]; intros r2 H2.
  - subst. inversion H2 as [|? ? ? Hstep]; subst; [congruence|].
    by apply Done_final in Hstep.
  - inversion H2 as [|? m'' ? Hstep' Hrest']; subst.
    + by apply Done_final in Hstep.
    + rewrite (step_deterministic _ _ _ _ Hstep Hstep') in IH. by apply IH.
Qed.

Lemma try_values_steps (cs : list constraint) (stack : list frame) (v : string)
    (domain : list Z) (todo : list (string * list Z)) :
  (∀ stack', rtc (step cs) (Advance stack' todo)
               (search_end stack' todo (search cs todo (assignment_of stack')))) →
  ∀ untried,
    rtc (step cs) (Try stack v domain untried todo)
      (search_end stack ((v, domain) :: todo)
         (try_values (search cs todo) cs v (assignment_of stack) untried)).
Proof.
  intros Hrest. induction untried as [|x untried IH]; simpl.
  - apply rtc_once. constructor.
  - destruct (consistent cs (<[v := x]> (assignment_of stack))) as [ex|[]] eqn:Hcons.
    + simpl. apply rtc_once. by apply step_raise.
    + eapply rtc_l; [by apply step_assign|].
      eapply rtc_trans; [apply Hrest|]. simpl.
      destruct (search cs todo (<[v := x]> (assignment_of stack))) as [ex|[sol|]];
        simpl; [done|done|].
      eapply rtc_l; [apply step_undo|]. simpl. apply IH.
    + eapply rtc_l; [by apply step_reject|]. apply IH.
Qed.

Lemma search_steps (cs : list constraint) (todo : list (string * list Z))
    (stack : list frame) :
  rtc (step cs) (Advance stack todo)
    (search_end stack todo (search cs todo (assignment_of stack))).
Proof.
  revert stack. induction todo as [|[v domain] rest IH]; intros stack; simpl.
  - apply rtc_once. constructor.
  - eapply rtc_l; [apply step_pick|]. by apply try_values_steps.
Qed.

(** The solver returns: the function [backtracking] is the result of a run. *)
Lemma backtracking_runs (problem : Problem) : runs problem (backtracking problem).
Proof.
  unfold runs, backtracking.
  eapply rtc_trans; [apply (search_steps _ _ [])|]. simpl.
  destruct (search _ _ ∅) as [ex|[sol|]]; simpl; [done|done|].
  apply rtc_once. constructor.
Qed.

Lemma solve_csp_run_total (activities : list activity) (weather_data : list row) (s e : Z) :
  solve_csp_run activities weather_data s e
    (solve_csp backtracking activities weather_data s e).
Proof.
  unfold solve_csp.
  destruct (add_variables activities s e empty_problem) as [ex|p] eqn:Hadd.
  - by constructor.
  - eapply run_searched; [done|]. apply backtracking_runs.
Qed.

(** ** Determinism *)

Lemma solve_csp_run_unique (activities : list activity) (weather_data : list row)
    (s e : Z) (o1 o2 : outcome) :
  solve_csp_run activities weather_data s e o1 →
  solve_csp_run activities weather_data s e o2 →
  o1 = o2.
Proof.
  intros H1 H2.
  destruct H1 as [ex1 Hex1|p1 r1 Hp1 Hrun1]; destruct H2 as [ex2 Hex2|p2 r2 Hp2 Hrun2];
    try congruence.
  assert (p1 = p2) as -> by congruence.
  by rewrite (run_unique _ _ _ _ Hrun1 Hrun2).
Qed.

(** C7. The solver is deterministic: any two runs of [solve_csp] on the
    same activities in the same order, the same weather observations and
    the same planning window end in the same result, the same schedule,
    the same infeasibility message or the same exception; it is the value
    of the function [solve_csp] with the backtracking search. *)
Theorem solve_csp_deterministic (activities : list activity) (weather_data : list row)
    (s e : Z) (o1 o2 : outcome) :
  solve_csp_run activities weather_data s e o1 →
  solve_csp_run activities weather_data s e o2 →
  o1 = o2 ∧ o1 = solve_csp backtracking activities weather_data s e.
Proof.
  intros H1 H2. split; [by eapply solve_csp_run_unique|].
  eapply solve_csp_run_unique; [done|apply solve_csp_run_total].
Qed.

Lemma solve_csp_deterministic_witness :
  Schedule (<[ "Walk" := (t1000, t1100) ]> {[ "Hike" := (t0800, t1000) ]})
    = Schedule (<[ "Hike" := (t0800, t1000) ]> {[ "Walk" := (t1000, t1100) ]}) ∧
  Schedule (<[ "Walk" := (t1000, t1100) ]> {[ "Hike" := (t0800, t1000) ]})
    = solve_csp backtracking [walk; hike] [] t0800 t1200.
Proof.
  apply (solve_csp_deterministic [walk; hike] [] t0800 t1200).
  - change (Schedule (<[ "Walk" := (t1000, t1100) ]> {[ "Hike" := (t0800, t1000) ]}))
      with (solve_csp backtracking [walk; hike] [] t0800 t1200).
    apply solve_csp_run_total.
  - change (Schedule (<[ "Hike" := (t0800, t1000) ]> {[ "Walk" := (t1000, t1100) ]}))
      with (solve_csp backtracking [walk; hike] [] t0800 t1200).
    apply solve_csp_run_total.
Defined.

(** * Further properties of the module *)

(** ** The weather predicate and the preference list *)

(** X1. The result of [weather_condition_check] depends only on which
    categories occur in the preference list: neither their order nor
    repetitions matter. *)
Theorem weather_condition_check_order_irrelevant (c : Z) (p1 p2 : list Weather) :
  (∀ w, w ∈ p1 ↔ w ∈ p2) →
  weather_condition_check c p1 = weather_condition_check c p2.
Proof.
  intros Hsame. apply eq_true_iff_eq. rewrite !weather_condition_check_true.
  split; intros (w & Hw & Hc); exists w; (split; [by apply Hsame|done]).
Qed.

Lemma weather_condition_check_order_irrelevant_witness :
  weather_condition_check 30 [Sunny; Cloudy] = weather_condition_check 30 [Cloudy; Sunny; Cloudy].
Proof.
  apply (weather_condition_check_order_irrelevant 30 [Sunny; Cloudy] [Cloudy; Sunny; Cloudy]).
  intros w. rewrite !elem_of_cons, !elem_of_nil. tauto.
Defined.

(** X2. Adding preferences never turns an accepted chance of rain into a
    rejected one. *)
Theorem weather_condition_check_monotone (c : Z) (p1 p2 : list Weather) :
  p1 ⊆ p2 →
  weather_condition_check c p1 = true → weather_condition_check c p2 = true.
Proof.
  intros Hsub. rewrite !weather_condition_check_true.
  intros (w & Hw & Hc). exists w. split; [by apply Hsub|done].
Qed.

Lemma weather_condition_check_monotone_witness :
  weather_condition_check 80 [Sunny; Rainy] = true.
Proof.
  apply (weather_condition_check_monotone 80 [Rainy] [Sunny; Rainy]).
  - intros w Hw. by right.
  - reflexivity.
Defined.

(** ** The weather index *)

Lemma build_weather_dict_snoc (weather_data : list row) (r : row) :
  build_weather_dict (weather_data ++ [r])
  = <[datetime r := r]> (build_weather_dict weather_data).
Proof. unfold build_weather_dict. by rewrite foldl_snoc. Qed.

Lemma build_weather_dict_last (weather_data : list row) (t : Z) :
  build_weather_dict weather_data !! t
  = last (filter (fun r => datetime r = t) weather_data).
Proof.
  induction weather_data as [|r rest IH] using rev_ind.
  - unfold build_weather_dict. simpl. apply lookup_empty.
  - rewrite build_weather_dict_snoc, filter_app.
    destruct (decide (datetime r = t)) as [Heq|Hne].
    + rewrite (filter_cons_True _ r []) by done. rewrite filter_nil, last_snoc.
      rewrite <- Heq. apply lookup_insert_eq.
    + rewrite (filter_cons_False _ r []) by done. rewrite filter_nil, app_nil_r.
      by rewrite lookup_insert_ne.
Qed.

Lemma build_weather_dict_Some (weather_data : list row) (t : Z) (r : row) :
  build_weather_dict weather_data !! t = Some r → r ∈ weather_data ∧ datetime r = t.
Proof.
  rewrite build_weather_dict_last. intros H%last_Some_elem_of.
  apply list_elem_of_filter in H. tauto.
Qed.

(** X3. The weather index returns, for a timestamp, the last row of the
    table with that timestamp, and nothing when no row has it: a found
    row always carries the timestamp it was looked up with. *)
Theorem weather_dict_lookup (weather_data : list row) (t : Z) :
  build_weather_dict weather_data !! t
    = last (filter (fun r => datetime r = t) weather_data) ∧
  (∀ r, build_weather_dict weather_data !! t = Some r →
        r ∈ weather_data ∧ datetime r = t) ∧
  (build_weather_dict weather_data !! t = None ↔
     ∀ r, r ∈ weather_data → datetime r ≠ t).
Proof.
  split; [apply build_weather_dict_last|]. split; [apply build_weather_dict_Some|].
  rewrite build_weather_dict_last. split.
  - intros Hnone r Hr Heq.
    assert (r ∈ filter (fun r => datetime r = t) weather_data) as Hin
      by by apply list_elem_of_filter.
    destruct (filter _ weather_data) as [|x l] using rev_ind.
    + by apply elem_of_nil in Hin.
    + by rewrite last_snoc in Hnone.
  - intros Hall. destruct (last _) as [r|] eqn:Hlast; [|done].
    apply last_Some_elem_of, list_elem_of_filter in Hlast as [Heq Hr].
    by destruct (Hall r Hr).
Qed.

(** ** What the weather constraint looks at *)

Lemma weather_loop_agree (offsets : list Z) (start_time : Z)
    (preferences : list Weather) (wd1 wd2 : gmap Z row) :
  (∀ h, h ∈ offsets →
     wd1 !! (start_time + timedelta_hours h) = wd2 !! (start_time + timedelta_hours h)) →
  weather_loop offsets start_time preferences wd1
  = weather_loop offsets start_time preferences wd2.
Proof.
  induction offsets as [|o rest IH]; [done|]. intros Hagree. simpl.
  rewrite (Hagree o) by left.
  rewrite IH; [done|]. intros h Hh. apply Hagree. by right.
Qed.

Lemma weather_constraint_cases (start_time dur : Z) (preferences : list Weather)
    (weather_dict : gmap Z row) :
  (weather_constraint start_time dur preferences weather_dict = inr true ∧
   ∀ h, 0 <= h < int_hours dur →
     weather_dict !! (start_time + timedelta_hours h) = None) ∨
  (weather_constraint start_time dur preferences weather_dict = inl series_error ∧
   ∃ h, 0 <= h < int_hours dur ∧
     is_Some (weather_dict !! (start_time + timedelta_hours h))).
Proof.
  destruct (decide (Exists
    (fun h => is_Some (weather_dict !! (start_time + timedelta_hours h)))
    (range (int_hours dur)))) as [Hex|Hnone].
  - right. apply Exists_exists in Hex as (h & Hh & Hhit). apply elem_of_range in Hh.
    split; [by eapply weather_constraint_hit|by exists h].
  - left. apply not_Exists_Forall in Hnone; [|apply _].
    rewrite Forall_forall in Hnone.
    assert (∀ h, 0 <= h < int_hours dur →
      weather_dict !! (start_time + timedelta_hours h) = None) as Hmiss.
    { intros h Hh%elem_of_range. specialize (Hnone h Hh). simpl in Hnone.
      destruct (weather_dict !! _); [|done]. destruct Hnone. by eexists. }
    split; [by apply weather_constraint_true|done].
Qed.

(** X4. The weather constraint reads the index only at the whole hours
    start, start + 1 h, ..., start + (int(duration) - 1) h: two indexes
    that agree there give the same result, whatever else they hold. *)
Theorem weather_constraint_local (start_time dur : Z) (preferences : list Weather)
    (wd1 wd2 : gmap Z row) :
  (∀ h, 0 <= h < int_hours dur →
     wd1 !! (start_time + timedelta_hours h) = wd2 !! (start_time + timedelta_hours h)) →
  weather_constraint start_time dur preferences wd1
  = weather_constraint start_time dur preferences wd2.
Proof.
  intros Hagree. unfold weather_constraint. apply weather_loop_agree.
  intros h Hh%elem_of_range. by apply Hagree.
Qed.

Lemma weather_constraint_local_witness :
  weather_constraint t0800 (duration stroll) (weather stroll)
    (build_weather_dict morning_late)
  = weather_constraint t0800 (duration stroll) (weather stroll)
      (<[t0900 := {| datetime := t0900; chance_of_rain := 95 |}]>
         (build_weather_dict morning_late)).
Proof.
  apply (weather_constraint_local t0800 (duration stroll) (weather stroll)).
  intros h Hh. change (int_hours (duration stroll)) with 1 in Hh.
  assert (h = 0) as -> by lia.
  by vm_compute.
Defined.

(** X5. Removing observations from the index never makes a satisfied
    weather constraint fail: the constraint is satisfied under every
    sub-index of an index under which it is satisfied. *)
Theorem weather_constraint_fewer_observations (start_time dur : Z)
    (preferences : list Weather) (wd1 wd2 : gmap Z row) :
  wd1 ⊆ wd2 →
  weather_constraint start_time dur preferences wd2 = inr true →
  weather_constraint start_time dur preferences wd1 = inr true.
Proof.
  intros Hsub. rewrite !weather_constraint_true.
  intros H h Hh. specialize (H h Hh).
  destruct (wd1 !! (start_time + timedelta_hours h)) as [obs|] eqn:Hobs; [|done].
  by rewrite (lookup_weaken _ _ _ _ Hobs Hsub) in H.
Qed.

Lemma weather_constraint_fewer_observations_witness :
  weather_constraint t0800 (duration hike) (weather hike)
    (delete t1000 (build_weather_dict morning_late)) = inr true.
Proof.
  apply (weather_constraint_fewer_observations t0800 (duration hike) (weather hike)
           (delete t1000 (build_weather_dict morning_late))
           (build_weather_dict morning_late)).
  - apply delete_subseteq.
  - by vm_compute.
Defined.

(** X6. A start that satisfies the weather constraint of a duration
    satisfies it for every shorter duration. *)
Theorem weather_constraint_shorter (start_time d1 d2 : Z)
    (preferences : list Weather) (weather_dict : gmap Z row) :
  d1 <= d2 →
  weather_constraint start_time d2 preferences weather_dict = inr true →
  weather_constraint start_time d1 preferences weather_dict = inr true.
Proof.
  intros Hle. rewrite !weather_constraint_true.
  intros H h Hh. apply (H h).
  unfold int_hours in *. pose proof (Z.quot_le_mono d1 d2 3600 ltac:(lia) Hle). lia.
Qed.

Lemma weather_constraint_shorter_witness :
  weather_constraint t0800 (duration walk) [Sunny] (build_weather_dict morning_late) = inr true.
Proof.
  apply (weather_constraint_shorter t0800 (duration walk) (duration hike)).
  - by vm_compute.
  - by vm_compute.
Defined.

(** X7. The weather constraint returns [True] exactly when none of the
    whole hours it looks at has an observation in the index; when one has,
    the truth value asked of the found row raises the [ValueError] of
    pandas; the constraint never returns [False]. *)
Theorem weather_constraint_true_or_raises (start_time dur : Z)
    (preferences : list Weather) (weather_dict : gmap Z row) :
  (weather_constraint start_time dur preferences weather_dict = inr true ↔
     ∀ h, 0 <= h < int_hours dur →
       weather_dict !! (start_time + timedelta_hours h) = None) ∧
  (weather_constraint start_time dur preferences weather_dict = inl series_error ↔
     ∃ h, 0 <= h < int_hours dur ∧
       is_Some (weather_dict !! (start_time + timedelta_hours h))) ∧
  weather_constraint start_time dur preferences weather_dict ≠ inr false.
Proof.
  split; [apply weather_constraint_true|].
  destruct (weather_constraint_cases start_time dur preferences weather_dict)
    as [[Htrue Hmiss]|[Hraise Hhit]].
  - rewrite Htrue. split; [|done]. split; [done|].
    intros (h & Hh & Hsome). rewrite (Hmiss h Hh) in Hsome. by destruct Hsome.
  - rewrite Hraise. split; [|done]. by split.
Qed.

(** X8. The preference list has no effect on the result of the weather
    constraint: the compatibility predicate is behind the truth value of
    the found row and is never reached. *)
Theorem weather_constraint_ignores_preferences (start_time dur : Z)
    (p1 p2 : list Weather) (weather_dict : gmap Z row) :
  weather_constraint start_time dur p1 weather_dict
  = weather_constraint start_time dur p2 weather_dict.
Proof.
  destruct (weather_constraint_cases start_time dur p1 weather_dict)
    as [[H1 Hmiss]|[H1 (h & Hh & Hhit)]]; rewrite H1; symmetry.
  - by apply weather_constraint_true.
  - by eapply weather_constraint_hit.
Qed.

(** ** The shape of the generated domain *)

Lemma range_nonpos (n : Z) : n <= 0 → range n = [].
Proof. intros Hn. unfold range. by replace (Z.to_nat n) with 0%nat by lia. Qed.

Lemma start_times_loop_filter (hours : list Z) (d s e : Z) :
  start_times_loop hours d s e
  = (fun k => s + 3600 * k) <$> filter (fun k => s + 3600 * k + 3600 * d <= e) hours.
Proof.
  induction hours as [|k rest IH]; [done|].
  simpl. unfold timedelta_minutes.
  destruct (Z.leb_spec (s + 60 * (k * 60) + 60 * (d * 60)) e) as [Hle|Hgt].
  - rewrite filter_cons_True by lia. simpl. rewrite IH. f_equal. lia.
  - rewrite filter_cons_False by lia. done.
Qed.

Lemma filter_lt_seq (m : Z) (n : nat) :
  filter (fun k => k < m) (Z.of_nat <$> seq 0 n)
  = Z.of_nat <$> seq 0 (Z.to_nat (Z.min (Z.of_nat n) m)).
Proof.
  induction n as [|n IH].
  - simpl. by replace (Z.to_nat _) with 0%nat by lia.
  - rewrite seq_S, fmap_app, filter_app, IH. simpl.
    destruct (decide (Z.of_nat n < m)) as [Hlt|Hge].
    + rewrite (filter_cons_True _ (Z.of_nat n) []) by done. rewrite filter_nil.
      replace (Z.to_nat (Z.min (Z.of_nat n) m)) with n by lia.
      replace (Z.to_nat (Z.min (Z.of_nat (S n)) m)) with (S n) by lia.
      by rewrite seq_S, fmap_app.
    + rewrite (filter_cons_False _ (Z.of_nat n) []) by done. rewrite filter_nil, app_nil_r.
      f_equal. f_equal. lia.
Qed.

Lemma filter_lt_range (m n : Z) :
  filter (fun k => k < m) (range n) = range (Z.min n m).
Proof.
  unfold range. rewrite filter_lt_seq. f_equal. f_equal. lia.
Qed.

Lemma possible_start_times_hours (dur s e : Z) :
  dur >= 1800 →
  possible_start_times dur s e
  = (fun k => s + 3600 * k) <$> range ((e - s) `div` 3600 - dur ÷ 1800 + 1).
Proof.
  intros Hdur. unfold possible_start_times, int_half_hours.
  rewrite start_times_loop_filter. f_equal.
  rewrite (list_filter_iff _ (fun k => k < (e - s) `div` 3600 - dur ÷ 1800 + 1)).
  2:{ intros k. Z.to_euclidean_division_equations. lia. }
  rewrite filter_lt_range.
  assert (1 <= dur ÷ 1800) as Hd by (Z.to_euclidean_division_equations; lia).
  destruct (Z_le_gt_dec ((e - s) `div` 3600) 0) as [Hsmall|Hbig].
  - rewrite !range_nonpos; [done|lia|lia].
  - f_equal. Z.to_euclidean_division_equations. lia.
Qed.

Lemma range_sorted (n : Z) : StronglySorted Z.lt (range n).
Proof.
  unfold range. generalize (Z.to_nat n) as m. intros m. generalize 0%nat as a.
  induction m as [|m IH]; intros a; simpl; constructor; [apply IH|].
  apply Forall_forall. intros k (i & -> & Hi)%list_elem_of_fmap.
  apply elem_of_seq in Hi. lia.
Qed.

Lemma start_times_loop_sorted (hours : list Z) (d s e : Z) :
  StronglySorted Z.lt hours → StronglySorted Z.lt (start_times_loop hours d s e).
Proof.
  induction 1 as [|k rest Hsorted IH Hall]; simpl; [constructor|].
  assert (Forall (Z.lt (s + timedelta_minutes (k * 60))) (start_times_loop rest d s e)) as Hlow.
  { apply Forall_forall. intros t (k' & Hk' & -> & _)%start_times_loop_elem.
    rewrite Forall_forall in Hall. specialize (Hall k' Hk').
    unfold timedelta_minutes. lia. }
  destruct (_ <=? e); [by constructor|done].
Qed.

(** X9. For a duration of at least half an hour the generated domain is
    exactly the starts window.start + k hours for
    k = 0, 1, ..., (window length in whole hours) - int(duration * 2), in
    this order and each once. *)
Theorem possible_start_times_closed_form (dur s e : Z) :
  dur >= 1800 →
  possible_start_times dur s e
    = (fun k => s + 3600 * k) <$> range ((e - s) `div` 3600 - int_half_hours dur + 1) ∧
  length (possible_start_times dur s e)
    = Z.to_nat ((e - s) `div` 3600 - int_half_hours dur + 1).
Proof.
  intros Hdur. unfold int_half_hours. rewrite possible_start_times_hours by done.
  split; [done|]. unfold range. by rewrite !length_fmap, length_seq.
Qed.

Lemma possible_start_times_closed_form_witness :
  possible_start_times (duration nap) t0800 t1200
    = (fun k => t0800 + 3600 * k)
        <$> range ((t1200 - t0800) `div` 3600 - int_half_hours (duration nap) + 1) ∧
  length (possible_start_times (duration nap) t0800 t1200)
    = Z.to_nat ((t1200 - t0800) `div` 3600 - int_half_hours (duration nap) + 1).
Proof.
  apply (possible_start_times_closed_form (duration nap) t0800 t1200).
  by vm_compute.
Defined.

(** X10. For every duration and window the generated domain is strictly
    ascending: earliest start first, no start twice. *)
Theorem possible_start_times_ascending (dur s e : Z) :
  StronglySorted Z.lt (possible_start_times dur s e) ∧
  NoDup (possible_start_times dur s e).
Proof.
  assert (StronglySorted Z.lt (possible_start_times dur s e)) as Hsorted.
  { unfold possible_start_times. apply start_times_loop_sorted, range_sorted. }
  split; [done|].
  induction Hsorted as [|t rest Hs IH Hall]; constructor; [|done].
  intros Hin. rewrite Forall_forall in Hall. specialize (Hall t Hin). lia.
Qed.

Lemma possible_start_times_fit (dur s e t : Z) :
  dur >= 1800 → t ∈ possible_start_times dur s e →
  s <= t ∧ t + dur <= e ∧ ∃ k, 0 <= k ∧ t = s + 3600 * k.
Proof.
  intros Hdur (k & Hk & -> & Hfit)%possible_start_times_elem.
  split; [lia|]. split; [|exists k; lia].
  assert (dur <= 3600 * (dur ÷ 1800)) by (Z.to_euclidean_division_equations; lia).
  lia.
Qed.

(** X11. For a duration of at least half an hour every generated
    candidate start passes [is_within_time_range]: the activity placed
    there lies inside the planning window. *)
Theorem possible_start_times_within_window (dur s e t : Z) :
  dur >= 1800 → t ∈ possible_start_times dur s e →
  is_within_time_range s e t dur = true.
Proof.
  intros Hdur Ht. destruct (possible_start_times_fit _ _ _ _ Hdur Ht) as (Hlo & Hhi & _).
  unfold is_within_time_range. simpl. lia.
Qed.

Lemma possible_start_times_within_window_witness :
  is_within_time_range t0800 t1200 t1000 (duration walk) = true.
Proof.
  apply (possible_start_times_within_window (duration walk) t0800 t1200 t1000).
  - by vm_compute.
  - change (possible_start_times (duration walk) t0800 t1200) with [t0800; t0900; t1000].
    set_solver.
Defined.

(** X12. For a duration of at least half an hour the generated domain is
    empty exactly when the window is shorter than int(duration * 2) whole
    hours, that is, for the half-hour durations of the input widget,
    shorter than twice the duration. *)
Theorem possible_start_times_empty_iff (dur s e : Z) :
  dur >= 1800 →
  (possible_start_times dur s e = [] ↔ e - s < 3600 * int_half_hours dur).
Proof.
  intros Hdur. unfold int_half_hours. rewrite possible_start_times_hours by done. split.
  - intros Hnil%fmap_nil_inv. unfold range in Hnil. apply fmap_nil_inv in Hnil.
    destruct (Z.to_nat _) eqn:Hn; [|done].
    Z.to_euclidean_division_equations. lia.
  - intros Hshort. rewrite range_nonpos; [done|].
    Z.to_euclidean_division_equations. lia.
Qed.

Lemma possible_start_times_empty_iff_witness :
  possible_start_times 10800 t0800 t1200 = [] ↔ t1200 - t0800 < 3600 * int_half_hours 10800.
Proof. apply (possible_start_times_empty_iff 10800 t0800 t1200). lia. Defined.

(** X13. When every observation of the weather table is on a whole hour
    and the window does not start on one, every candidate start of every
    activity satisfies every weather constraint: the lookups find
    nothing, and the weather preferences have no effect. *)
Theorem off_hour_window_ignores_weather (weather_data : list row)
    (dur s e t dur' : Z) (preferences : list Weather) :
  Forall (fun r => datetime r `mod` 3600 = 0) weather_data →
  s `mod` 3600 ≠ 0 →
  t ∈ possible_start_times dur s e →
  weather_constraint t dur' preferences (build_weather_dict weather_data) = inr true.
Proof.
  intros Haligned Hoff (k & _ & -> & _)%possible_start_times_elem.
  apply weather_constraint_true. intros h _.
  destruct (build_weather_dict weather_data !! (s + 3600 * k + timedelta_hours h))
    as [obs|] eqn:Hobs; [|done].
  apply build_weather_dict_Some in Hobs as [Hin Hkey].
  rewrite Forall_forall in Haligned. specialize (Haligned obs Hin).
  exfalso. apply Hoff. unfold timedelta_hours in Hkey.
  rewrite Hkey in Haligned. revert Haligned.
  Z.to_euclidean_division_equations. lia.
Qed.

Lemma off_hour_window_ignores_weather_witness :
  weather_constraint t0830 (duration walk) (weather walk)
    (build_weather_dict morning_rain) = inr true.
Proof.
  apply (off_hour_window_ignores_weather morning_rain (duration walk) t0830 t1200 t0830).
  - repeat constructor.
  - by vm_compute.
  - change (possible_start_times (duration walk) t0830 t1200) with [t0830; t0830 + 3600].
    set_solver.
Defined.

(** ** Exceptions of [solve_csp] *)

Lemma add_variables_inl (activities : list activity) (s e : Z) (p : Problem) (ex : exn) :
  add_variables activities s e p = inl ex →
  (∃ msg, ex = ValueError msg) ∧
  (¬ NoDup ((variables p).*1 ++ (name <$> activities)) ∨
   ∃ a, a ∈ activities ∧ possible_start_times (duration a) s e = []).
Proof.
  revert p. induction activities as [|a rest IH]; intros p; simpl; [done|].
  unfold addVariable. case_decide as Hin.
  - intros [= <-]. split; [by eexists|]. left. intros Hnd.
    apply NoDup_app in Hnd as (_ & Hdisj & _). apply (Hdisj _ Hin). left.
  - destruct (possible_start_times (duration a) s e) as [|t ts] eqn:Hdom.
    + intros [= <-]. split; [by eexists|]. right. exists a. split; [left|done].
    + intros (Hmsg & Hcase)%IH. split; [done|]. simpl in Hcase.
      destruct Hcase as [Hnd|(b & Hb & Hempty)].
      * left. by rewrite fmap_app, <- app_assoc in Hnd.
      * right. exists b. split; [by right|done].
Qed.

Lemma find_activity_None (activity_name : string) (activities : list activity) :
  find_activity activity_name activities = None ↔ activity_name ∉ name <$> activities.
Proof.
  induction activities as [|a rest IH]; simpl.
  - split; [intros _; apply not_elem_of_nil|done].
  - case_decide as Hn.
    + split; [done|]. intros Hnot. exfalso. apply Hnot. rewrite Hn. left.
    + rewrite IH, not_elem_of_cons. split; [intros H; split; [congruence|done]|tauto].
Qed.

Lemma build_schedule_inl (items : list (string * Z)) (activities : list activity)
    (schedule0 : gmap string (Z * Z)) (ex : exn) :
  build_schedule items activities schedule0 = inl ex →
  ex = StopIteration ∧ ∃ n st, (n, st) ∈ items ∧ n ∉ name <$> activities.
Proof.
  revert schedule0. induction items as [|[k v] rest IH]; intros schedule0; simpl; [done|].
  destruct (find_activity k activities) as [a|] eqn:Hfind.
  - intros (Hex & n & st & Hin & Hn)%IH. split; [done|]. exists n, st. split; [by right|done].
  - intros [= <-]. split; [done|]. exists k, v. split; [left|].
    by apply find_activity_None.
Qed.

Lemma build_schedule_unknown (items : list (string * Z)) (activities : list activity)
    (schedule0 : gmap string (Z * Z)) (n : string) (st : Z) :
  (n, st) ∈ items → n ∉ name <$> activities →
  build_schedule items activities schedule0 = inl StopIteration.
Proof.
  revert schedule0. induction items as [|[k v] rest IH]; intros schedule0 Hin Hn; simpl.
  - by apply elem_of_nil in Hin.
  - destruct (find_activity k activities) as [a|] eqn:Hfind; [|done].
    apply elem_of_cons in Hin as [[= -> ->]|Hin]; [|by apply IH].
    apply find_activity_None in Hn. congruence.
Qed.

(** X14. The schedule builder fails exactly when the assignment names
    something that is no activity; the failure is [StopIteration], the
    exhausted [next], and no other exception. *)
Theorem build_schedule_fails_iff (items : list (string * Z)) (activities : list activity)
    (schedule0 : gmap string (Z * Z)) :
  (build_schedule items activities schedule0 = inl StopIteration ↔
     ∃ n st, (n, st) ∈ items ∧ n ∉ name <$> activities) ∧
  (∀ ex, build_schedule items activities schedule0 = inl ex → ex = StopIteration).
Proof.
  split; [split|].
  - by intros (_ & H)%build_schedule_inl.
  - intros (n & st & Hin & Hn). by eapply build_schedule_unknown.
  - by intros ex (H & _)%build_schedule_inl.
Qed.

Section SolverFacts.

Context (getSolution : Problem → exn + option (gmap string Z)).
Hypothesis getSolution_sound : solver_sound getSolution.
Hypothesis getSolution_propagates : solver_propagates getSolution.

(** X15. Whatever the solver does, [solve_csp] ends in a [ValueError]
    exactly when two activities share a name, the generated domain of
    some activity is empty, or the solver lets a [ValueError] pass. *)
Theorem solve_csp_ValueError_iff (activities : list activity) (weather_data : list row)
    (s e : Z) :
  (∃ msg, solve_csp getSolution activities weather_data s e = Raised (ValueError msg)) ↔
  ¬ NoDup (name <$> activities) ∨
  (∃ a, a ∈ activities ∧ possible_start_times (duration a) s e = []) ∨
  ∃ msg, getSolution (csp_problem activities (build_weather_dict weather_data) s e)
           = inl (ValueError msg).
Proof.
  unfold solve_csp.
  destruct (add_variables activities s e empty_problem) as [ex|p] eqn:Hadd.
  - destruct (add_variables_inl _ _ _ _ _ Hadd) as ([msg ->] & Hcase).
    split; [|intros _; by exists msg].
    intros _. destruct Hcase as [Hdup|Hempty]; [by left|right; by left].
  - destruct (solve_csp_problem _ (build_weather_dict weather_data) _ _ _ Hadd)
      as (-> & Hnd & _).
    split.
    + intros [msg Hres]. unfold solve_csp_result in Hres.
      destruct (getSolution _) as [ex|[solution|]] eqn:Hsol; [|exfalso|done].
      * injection Hres as ->. right. right. by exists msg.
      * destruct (build_schedule _ _ _) as [ex|sched] eqn:Hbuild; [|done].
        apply build_schedule_inl in Hbuild as [-> _]. done.
    + intros [Hdup|[(a & Ha & Hempty)|[msg Hmsg]]].
      * done.
      * destruct (add_variables_empty_domain activities s e empty_problem a Ha Hempty)
          as [msg Hmsg]. congruence.
      * exists msg. by rewrite Hmsg.
Qed.

(** X16. With a solver that returns only solutions of the problem it is
    given and raises nothing of its own, [solve_csp] never ends in
    [StopIteration]: every name of the assignment is the name of an
    activity, and the constraints raise [ValueError] only. *)
Theorem solve_csp_never_StopIteration (activities : list activity)
    (weather_data : list row) (s e : Z) :
  solve_csp getSolution activities weather_data s e ≠ Raised StopIteration.
Proof.
  unfold solve_csp.
  destruct (add_variables activities s e empty_problem) as [ex|p] eqn:Hadd.
  - destruct (add_variables_inl _ _ _ _ _ Hadd) as ([msg ->] & _). done.
  - destruct (solve_csp_problem _ (build_weather_dict weather_data) _ _ _ Hadd)
      as (-> & Hnd & Hwf).
    unfold solve_csp_result.
    destruct (getSolution _) as [ex|[solution|]] eqn:Hsol; [| |done].
    + intros [= ->].
      destruct (getSolution_propagates _ _ Hsol) as (c & Hc & Hraise).
      simpl in Hc. apply elem_of_app in Hc as [Hc|Hc].
      * apply pair_constraints_elem in Hc as (i & j & a & b & _ & _ & _ & ->).
        by destruct Hraise as (x1 & x2 & ?).
      * apply list_elem_of_fmap in Hc as (a & -> & _). destruct Hraise as [x Hx].
        destruct (weather_constraint_cases x (duration a) (weather a)
                    (build_weather_dict weather_data)) as [[H _]|[H _]];
          rewrite H in Hx; done.
    + destruct (build_schedule _ _ _) as [ex|sched] eqn:Hbuild; [|done].
      apply build_schedule_inl in Hbuild as (_ & n & st & Hin & Hn).
      destruct (getSolution_sound _ _ Hwf Hsol) as (Hdom & _ & _).
      exfalso. apply Hn. apply elem_of_map_to_list in Hin.
      rewrite <- (activity_variable_names s e). apply Hdom. by exists st.
Qed.

(** X17. A returned schedule has exactly one entry per activity: its keys
    are the activity names, and there are as many as activities. *)
Theorem schedule_keys_are_names (activities : list activity) (weather_data : list row)
    (s e : Z) (schedule : gmap string (Z * Z)) :
  solve_csp getSolution activities weather_data s e = Schedule schedule →
  (∀ n, is_Some (schedule !! n) ↔ n ∈ name <$> activities) ∧
  size schedule = length activities.
Proof.
  intros Hrun.
  destruct (solve_csp_Schedule _ _ _ _ _ _ Hrun)
    as (Hnd & Hwf & solution & Hsol & Hfind & Hsched).
  destruct (getSolution_sound _ _ Hwf Hsol) as (Hdom & _ & _).
  simpl in Hdom. rewrite activity_variable_names in Hdom.
  assert (∀ n, is_Some (schedule !! n) ↔ n ∈ name <$> activities) as Hkeys.
  { intros n. rewrite <- Hdom. split.
    - intros [[st en] Hn]. apply Hsched in Hn as (a & Hst & _). by exists st.
    - intros [st Hst]. destruct (Hfind n st Hst) as [a Ha].
      exists (st, st + duration a). apply Hsched. by exists a. }
  split; [done|].
  assert (dom schedule = list_to_set (name <$> activities)) as Hdomeq.
  { apply set_eq. intros n. rewrite elem_of_dom, Hkeys, elem_of_list_to_set. done. }
  rewrite <- size_dom, Hdomeq, size_list_to_set by done. by rewrite length_fmap.
Qed.

(** X18. In a returned schedule every activity of at least half an hour
    starts at one of its generated candidates, a whole number of hours
    after the window start, and lies inside the planning window. *)
Theorem schedule_within_window (activities : list activity) (weather_data : list row)
    (s e : Z) (schedule : gmap string (Z * Z)) (a : activity) :
  solve_csp getSolution activities weather_data s e = Schedule schedule →
  a ∈ activities → duration a >= 1800 →
  ∃ st, schedule !! name a = Some (st, st + duration a) ∧
        st ∈ possible_start_times (duration a) s e ∧
        is_within_time_range s e st (duration a) = true ∧
        ∃ k, 0 <= k ∧ st = s + 3600 * k.
Proof.
  intros Hrun Ha Hdur.
  destruct (solve_csp_sound _ getSolution_sound _ _ _ _ _ Hrun) as (solution & Hof & Hsched).
  destruct (Hsched a Ha) as (st & Hst & Hentry).
  destruct Hof as (_ & Hval & _).
  assert (st ∈ possible_start_times (duration a) s e) as Hin.
  { apply (Hval (name a)); [|done]. simpl. apply list_elem_of_fmap. by exists a. }
  exists st. split; [done|]. split; [done|].
  destruct (possible_start_times_fit _ _ _ _ Hdur Hin) as (Hlo & Hhi & Hk).
  split; [|done]. unfold is_within_time_range. simpl. lia.
Qed.

End SolverFacts.

Lemma solve_csp_ValueError_iff_witness :
  (∃ msg, solve_csp backtracking [walk] morning_rain t0800 t1200
            = Raised (ValueError msg)) ↔
  ¬ NoDup (name <$> [walk]) ∨
  (∃ a, a ∈ [walk] ∧ possible_start_times (duration a) t0800 t1200 = []) ∨
  ∃ msg, backtracking (csp_problem [walk] (build_weather_dict morning_rain) t0800 t1200)
           = inl (ValueError msg).
Proof. apply (solve_csp_ValueError_iff backtracking [walk] morning_rain t0800 t1200). Defined.

Lemma solve_csp_never_StopIteration_witness :
  solve_csp backtracking [walk; hike] morning_clear t0800 t1200 ≠ Raised StopIteration.
Proof.
  apply (solve_csp_never_StopIteration backtracking backtracking_sound
           backtracking_propagates [walk; hike] morning_clear t0800 t1200).
Defined.

Lemma schedule_keys_are_names_witness :
  (∀ n, is_Some ((<[ "Walk" := (t1000, t1100) ]> {[ "Hike" := (t0800, t1000) ]}
                   : gmap string (Z * Z)) !! n) ↔ n ∈ name <$> [walk; hike]) ∧
  size (<[ "Walk" := (t1000, t1100) ]> {[ "Hike" := (t0800, t1000) ]}
          : gmap string (Z * Z)) = length [walk; hike].
Proof.
  apply (schedule_keys_are_names backtracking backtracking_sound
           [walk; hike] [] t0800 t1200).
  by vm_compute.
Defined.

Lemma schedule_within_window_witness :
  ∃ st, (<[ "Walk" := (t1000, t1100) ]> {[ "Hike" := (t0800, t1000) ]}
           : gmap string (Z * Z)) !! name walk = Some (st, st + duration walk) ∧
        st ∈ possible_start_times (duration walk) t0800 t1200 ∧
        is_within_time_range t0800 t1200 st (duration walk) = true ∧
        ∃ k, 0 <= k ∧ st = t0800 + 3600 * k.
Proof.
  apply (schedule_within_window backtracking backtracking_sound
           [walk; hike] [] t0800 t1200).
  - by vm_compute.
  - set_solver.
  - by vm_compute.
Defined.

(** ** The total duration of a returned schedule *)

Lemma total_length_filter (P : Z * Z → Prop) `{!∀ i, Decision (P i)} (l : list (Z * Z)) :
  total_length l = total_length (filter P l) + total_length (filter (fun i => ¬ P i) l).
Proof.
  induction l as [|i rest IH]; [done|].
  destruct (decide (P i)) as [Hi|Hi].
  - rewrite filter_cons_True, (filter_cons_False (fun i => ¬ P i)) by tauto. simpl. lia.
  - rewrite filter_cons_False, (filter_cons_True (fun i => ¬ P i)) by tauto. simpl. lia.
Qed.

Lemma pairwise_apart_filter (P : Z * Z → Prop) `{!∀ i, Decision (P i)} (l : list (Z * Z)) :
  pairwise_apart l → pairwise_apart (filter P l).
Proof.
  induction l as [|i rest IH]; [done|]. simpl. intros [Hall Hrest].
  destruct (decide (P i)) as [Hi|Hi].
  - rewrite filter_cons_True by done. simpl. split; [|by apply IH].
    apply Forall_forall. intros j [_ Hj]%list_elem_of_filter.
    rewrite Forall_forall in Hall. by apply Hall.
  - rewrite filter_cons_False by done. by apply IH.
Qed.

(** Intervals of positive length inside [lo, hi] of which no two overlap
    have a total length of at most hi - lo. *)
Lemma pairwise_apart_total (n : nat) :
  ∀ (l : list (Z * Z)) (lo hi : Z),
    (length l <= n)%nat → lo <= hi →
    Forall (fun i => 0 < i.2 ∧ lo <= i.1 ∧ i.1 + i.2 <= hi) l →
    pairwise_apart l → total_length l <= hi - lo.
Proof.
  induction n as [|n IH]; intros l lo hi Hlen Hlohi Hin Hapart.
  - destruct l; [simpl; lia|simpl in Hlen; lia].
  - destruct l as [|[t d] rest]; [simpl; lia|].
    simpl in Hlen, Hapart. destruct Hapart as [Hall Hrest].
    apply Forall_cons in Hin as [(Hd & Hlo & Hhi) Hin]. simpl in *.
    rewrite (total_length_filter (fun j => j.1 + j.2 <= t) rest).
    assert (total_length (filter (fun j => j.1 + j.2 <= t) rest) <= t - lo) as Hleft.
    { apply IH; [|lia| |by apply pairwise_apart_filter].
      - pose proof (length_filter (fun j => j.1 + j.2 <= t) rest). lia.
      - apply Forall_forall. intros j [Hj Hjin]%list_elem_of_filter.
        rewrite Forall_forall in Hin. destruct (Hin j Hjin) as (? & ? & ?). lia. }
    assert (total_length (filter (fun j => ¬ j.1 + j.2 <= t) rest) <= hi - (t + d)) as Hright.
    { apply IH; [|lia| |by apply pairwise_apart_filter].
      - pose proof (length_filter (fun j => ¬ j.1 + j.2 <= t) rest). lia.
      - apply Forall_forall. intros j [Hj Hjin]%list_elem_of_filter.
        rewrite Forall_forall in Hin, Hall.
        destruct (Hin j Hjin) as (? & ? & ?).
        specialize (Hall j Hjin). apply no_overlap_true in Hall. lia. }
    lia.
Qed.

Lemma intervals_of_apart (solution : gmap string Z) (activities : list activity) :
  (∀ a, a ∈ activities → is_Some (solution !! name a)) →
  Forall (fun c => constraint_holds solution c = true) (pair_constraints activities) →
  pairwise_apart (intervals_of solution activities).
Proof.
  induction activities as [|a rest IH]; [done|].
  intros Hsome Hcs. simpl in Hcs. apply Forall_app in Hcs as [Hhead Htail].
  simpl. split.
  - apply Forall_fmap, Forall_forall. intros b Hb. simpl.
    rewrite Forall_fmap, Forall_forall in Hhead. specialize (Hhead b Hb). simpl in Hhead.
    destruct (Hsome a) as [x1 H1]; [left|].
    destruct (Hsome b) as [x2 H2]; [by right|].
    by rewrite H1, H2 in *.
  - apply IH; [|done]. intros b Hb. apply Hsome. by right.
Qed.

Lemma intervals_of_total (solution : gmap string Z) (activities : list activity) :
  total_length (intervals_of solution activities) = total_duration activities.
Proof. induction activities as [|a rest IH]; [done|]. simpl. by rewrite IH. Qed.

Section SolverPacking.

Context (getSolution : Problem → exn + option (gmap string Z)).
Hypothesis getSolution_sound : solver_sound getSolution.

(** X19. When [solve_csp] returns a schedule for activities of at least
    half an hour each, their total duration is at most the length of the
    planning window: a list of activities longer in total than the window
    never gets a schedule. *)
Theorem schedule_total_duration (activities : list activity) (weather_data : list row)
    (s e : Z) (schedule : gmap string (Z * Z)) :
  solve_csp getSolution activities weather_data s e = Schedule schedule →
  Forall (fun a => duration a >= 1800) activities →
  total_duration activities <= Z.max 0 (e - s).
Proof.
  intros Hrun Hdur.
  destruct (solve_csp_sound _ getSolution_sound _ _ _ _ _ Hrun) as (solution & Hof & Hsched).
  destruct Hof as (_ & Hval & Hcs). simpl in Hcs. apply Forall_app in Hcs as [Hpairs _].
  assert (∀ a, a ∈ activities →
    s <= default 0 (solution !! name a) ∧
    default 0 (solution !! name a) + duration a <= e) as Hfit.
  { intros a Ha. destruct (Hsched a Ha) as (st & Hst & _). rewrite Hst. simpl.
    rewrite Forall_forall in Hdur.
    assert (st ∈ possible_start_times (duration a) s e) as Hin.
    { apply (Hval (name a)); [|done]. simpl. apply list_elem_of_fmap. by exists a. }
    destruct (possible_start_times_fit _ _ _ _ (Hdur a Ha) Hin) as (? & ? & _). lia. }
  destruct activities as [|a0 rest] eqn:Hacts; [simpl; lia|]. rewrite <- Hacts in *.
  assert (s <= e) as Hse.
  { destruct (Hfit a0) as [? ?]; [rewrite Hacts; left|].
    rewrite Forall_forall in Hdur. specialize (Hdur a0). rewrite Hacts in Hdur.
    specialize (Hdur ltac:(left)). lia. }
  rewrite <- (intervals_of_total solution).
  etrans; [|apply Z.le_max_r].
  apply (pairwise_apart_total (length (intervals_of solution activities))); [done|done| |].
  - unfold intervals_of. apply Forall_fmap, Forall_forall. intros a Ha. simpl.
    rewrite Forall_forall in Hdur. specialize (Hdur a Ha).
    destruct (Hfit a Ha). lia.
  - apply intervals_of_apart; [|done].
    intros a Ha. destruct (Hsched a Ha) as (st & Hst & _). by exists st.
Qed.

End SolverPacking.

Lemma schedule_total_duration_witness :
  total_duration [walk; hike] <= Z.max 0 (t1200 - t0800).
Proof.
  apply (schedule_total_duration backtracking backtracking_sound
           [walk; hike] [] t0800 t1200
           (<[ "Walk" := (t1000, t1100) ]> {[ "Hike" := (t0800, t1000) ]})).
  - by vm_compute.
  - repeat constructor; by vm_compute.
Defined.

(** ** The window of the user interface *)

(** X20. In [user_interface] both ends of the window lie on the planning
    day, so the window is end_time - start_time long; when the end time
    is not after the start time, Submit with any activity of positive
    duration ends in the [ValueError] of an empty domain or a duplicated
    name, whatever the weather and the solver. *)
Theorem user_interface_window (getSolution : Problem → exn + option (gmap string Z))
    (activities : list activity) (weather_data : list row)
    (planning_day start_time end_time : Z) (a : activity) :
  end_time <= start_time → a ∈ activities → 0 < duration a →
  combine_date_time planning_day end_time - combine_date_time planning_day start_time
    = end_time - start_time ∧
  ∃ msg, user_interface_submit getSolution activities weather_data
           planning_day start_time end_time = Raised (ValueError msg).
Proof.
  intros Hend Ha Hdur. unfold user_interface_submit, combine_date_time.
  split; [lia|].
  assert (possible_start_times (duration a) (86400 * planning_day + start_time)
            (86400 * planning_day + end_time) = []) as Hdom
    by (apply possible_start_times_too_long; lia).
  destruct (add_variables_empty_domain activities _ _ empty_problem a Ha Hdom)
    as [msg Hadd].
  exists msg. unfold solve_csp. by rewrite Hadd.
Qed.

Lemma user_interface_window_witness :
  combine_date_time 19700 t0800 - combine_date_time 19700 t1000 = t0800 - t1000 ∧
  ∃ msg, user_interface_submit backtracking [nap] morning_clear 19700 t1000 t0800
           = Raised (ValueError msg).
Proof.
  apply (user_interface_window backtracking [nap] morning_clear 19700 t1000 t0800 nap).
  - by vm_compute.
  - set_solver.
  - by vm_compute.
Defined.
